(** * Matsu companion: alert evaluation, rule normalisation and custom sorting

    A shallow embedding of the parts of the launcher extension that carry
    its logic:

    - [isValueOutOfRange]                         (src/utils.ts)
    - [parseAlertCondition], [getMonitors], [getAlertConfigs],
      [updateAlertConfig] of the new-schema [MatsuAPI] client
    - the [case "custom"] arm of the comparators of [sortedMonitors]
      (src/list-monitors.tsx) and [sortedAlertItems] (src/view-alerts.tsx)
    - the other strategies of these comparators that do not compute with
      dates or with differences of values ([name], [alertStatus], [status],
      [level]), the joining of monitors and configs into alert items, the
      reading of the comma-separated preferences and of the tag field
    - the menu bar: [sortByCustomOrder], the pinned monitors and their
      rotation
    - [handleSubmit] of [EditAlertForm] and of [CreateConstantForm]

    Conventions of the embedding.

    - A JavaScript [number] is an IEEE 754 binary64 value, which is exactly
      Rocq's primitive [float]; comparisons, NaN and signed zeros behave as
      in the source.
    - [T | null] and optional parameters are [option T]; [null] and
      [undefined] are both [None]: the code modelled here never tells
      them apart.
    - A string is a sequence of code units; the embedding covers code
      units below 256, so that a string is a Stdlib [string].
    - A method that awaits [this.request] receives the outcome of that
      request from an [Upstream] record: either the decoded JSON value or a
      thrown error.  [console.log] calls are not modelled. *)

From Stdlib Require Import ZArith Bool List String Ascii Lia.
From Stdlib Require Import Permutation Sorted.
From Stdlib Require Import Floats.PrimFloat Floats.SpecFloat Floats.FloatOps.
From Stdlib Require Import Floats.FloatAxioms.
From Stdlib Require Import DecimalString.
Import ListNotations.

Local Open Scope string_scope.
Local Open Scope list_scope.

(* ================================================================== *)
(** * JavaScript values *)

(** [number]: binary64. *)
Definition number : Set := float.

(** ToBoolean on a number: false for +0, -0 and NaN. *)
Definition number_truthy (x : number) : bool :=
  negb (PrimFloat.eqb x 0%float || PrimFloat.is_nan x).

(** ToBoolean on [string | null | undefined]: false for null and for the
    empty string. *)
Definition string_truthy (o : option string) : bool :=
  match o with
  | None => false
  | Some s => negb (String.eqb s "")
  end.

(** [a || b] on strings where [a] may be null. *)
Definition string_or (a : option string) (b : string) : string :=
  match a with
  | Some s => if String.eqb s "" then b else s
  | None => b
  end.

(** [x || null] where [x] is an optional number. *)
Definition number_or_null (x : option number) : option number :=
  match x with
  | Some v => if number_truthy v then Some v else None
  | None => None
  end.

(* ================================================================== *)
(** * src/utils.ts *)

(** [[
export function isValueOutOfRange(value, upperThreshold?, lowerThreshold?) {
  if (value === null) return false;
  if (upperThreshold && value > upperThreshold) return true;
  if (lowerThreshold && value < lowerThreshold) return true;
  return false;
}
]] *)
Definition isValueOutOfRange (value : option number)
    (upperThreshold lowerThreshold : option number) : bool :=
  match value with
  | None => false
  | Some v =>
      if match upperThreshold with
         | Some u => number_truthy u && PrimFloat.ltb u v
         | None => false
         end
      then true
      else if match lowerThreshold with
              | Some l => number_truthy l && PrimFloat.ltb v l
              | None => false
              end
      then true
      else false
  end.

(* ================================================================== *)
(** * Regular expressions

    The two patterns of [parseAlertCondition] are written as terms of
    [regex] and run by a backtracking matcher with the priorities of the
    ECMAScript semantics: the left alternative first, greedy quantifiers
    (one more iteration before the continuation), an iteration of a
    quantifier that consumes nothing is rejected, and [String.prototype.match]
    without the [g] flag returns the match at the leftmost start index. *)

Inductive regex : Type :=
| Eps                              (* the empty pattern *)
| Lit (c : ascii)                  (* a pattern character, escaped or not *)
| Cls (p : ascii -> bool)          (* a character class *)
| Cat (r1 r2 : regex)              (* r1 r2 *)
| Alt (r1 r2 : regex)              (* r1|r2 *)
| Star (r : regex)                 (* r* *)
| Plus (r : regex)                 (* r+ *)
| Grp (n : nat) (r : regex).       (* the n-th capturing group *)

Declare Scope regex_scope.
Delimit Scope regex_scope with re.
Bind Scope regex_scope with regex.
Notation "r1 >> r2" := (Cat r1 r2) (at level 60, right associativity) : regex_scope.

(** A run of pattern characters. *)
Fixpoint lits (s : string) : regex :=
  match s with
  | EmptyString => Eps
  | String c s' => Cat (Lit c) (lits s')
  end.

Definition captures : Type := list (nat * list ascii).

Definition cont : Type := list ascii -> captures -> option (list ascii * captures).

(** The characters of [s] in front of its suffix [rest]. *)
Definition consumed (s rest : list ascii) : list ascii :=
  firstn (List.length s - List.length rest) s.

(** Greedy repetition of the matcher [m]; [fuel] bounds the number of
    iterations and is taken above the length of the input, each iteration
    having to consume at least one character. *)
Fixpoint star (m : list ascii -> captures -> cont -> option (list ascii * captures))
    (fuel : nat) (s : list ascii) (caps : captures) (k : cont)
    : option (list ascii * captures) :=
  match fuel with
  | O => k s caps
  | S fuel' =>
      match m s caps (fun s1 caps1 =>
              if Nat.ltb (List.length s1) (List.length s)
              then star m fuel' s1 caps1 k
              else None) with
      | Some res => Some res
      | None => k s caps
      end
  end.

Fixpoint rmatch (r : regex) (s : list ascii) (caps : captures) (k : cont)
    {struct r} : option (list ascii * captures) :=
  match r with
  | Eps => k s caps
  | Lit c =>
      match s with
      | c' :: s' => if Ascii.eqb c c' then k s' caps else None
      | [] => None
      end
  | Cls p =>
      match s with
      | c' :: s' => if p c' then k s' caps else None
      | [] => None
      end
  | Cat r1 r2 => rmatch r1 s caps (fun s1 caps1 => rmatch r2 s1 caps1 k)
  | Alt r1 r2 =>
      match rmatch r1 s caps k with
      | Some res => Some res
      | None => rmatch r2 s caps k
      end
  | Star r' => star (rmatch r') (S (List.length s)) s caps k
  | Plus r' =>
      rmatch r' s caps (fun s1 caps1 =>
        star (rmatch r') (S (List.length s1)) s1 caps1 k)
  | Grp n r' =>
      rmatch r' s caps (fun s1 caps1 => k s1 ((n, consumed s s1) :: caps1))
  end.

(** The match at the start of [s], if any: the rest of the input and the
    captures. *)
Definition match_here (r : regex) (s : list ascii) : option (list ascii * captures) :=
  rmatch r s [] (fun rest caps => Some (rest, caps)).

(** The leftmost match in [s]: the captures of the first start index at
    which the pattern matches. *)
Fixpoint search (r : regex) (s : list ascii) : option captures :=
  match match_here r s with
  | Some (_, caps) => Some caps
  | None =>
      match s with
      | [] => None
      | _ :: s' => search r s'
      end
  end.

(** [m[n]] for a match result [m]: the last text captured by group [n]. *)
Fixpoint group (n : nat) (caps : captures) : option string :=
  match caps with
  | [] => None
  | (i, txt) :: caps' =>
      if Nat.eqb i n then Some (string_of_list_ascii txt) else group n caps'
  end.

(** [s.match(r)]: [None] is [null]. *)
Definition string_match (s : string) (r : regex) : option captures :=
  search r (list_ascii_of_string s).

(** Character classes. *)
Definition not_rbrace (c : ascii) : bool := negb (Ascii.eqb c "}").

Definition digit_or_dot (c : ascii) : bool :=
  let n := nat_of_ascii c in
  (Nat.leb 48 n && Nat.leb n 57) || Ascii.eqb c ".".

(** [\s] on code units below 256: TAB, LF, VT, FF, CR, space and the
    no-break space U+00A0. *)
Definition white_space (c : ascii) : bool :=
  let n := nat_of_ascii c in
  (Nat.leb 9 n && Nat.leb n 13) || Nat.eqb n 32 || Nat.eqb n 160.

(** [/\$\{monitor:([^}]+)\}/] *)
Definition monitorId_re : regex :=
  (lits "${monitor:" >> Grp 1 (Plus (Cls not_rbrace)) >> Lit "}")%re.

(** [(?:\$\{monitor:[^}]+\}|value)], the reference in front of an operator. *)
Definition reference_re : regex :=
  Alt (lits "${monitor:" >> Plus (Cls not_rbrace) >> Lit "}")%re (lits "value").

(** [/(?:\$\{monitor:[^}]+\}|value)\s*>\s*([0-9.]+)/] *)
Definition upper_re : regex :=
  (reference_re >> Star (Cls white_space) >> Lit ">" >> Star (Cls white_space)
     >> Grp 1 (Plus (Cls digit_or_dot)))%re.

(** [/(?:\$\{monitor:[^}]+\}|value)\s*<\s*([0-9.]+)/] *)
Definition lower_re : regex :=
  (reference_re >> Star (Cls white_space) >> Lit "<" >> Star (Cls white_space)
     >> Grp 1 (Plus (Cls digit_or_dot)))%re.

(* ================================================================== *)
(** * parseFloat

    The global [parseFloat]: leading white space is skipped, the longest
    prefix that is a StrDecimalLiteral is read, and its mathematical value
    is rounded to the nearest binary64 (ties to even); NaN when there is
    no such prefix. *)

Definition is_digit (c : ascii) : bool :=
  let n := nat_of_ascii c in Nat.leb 48 n && Nat.leb n 57.

Definition digit_value (c : ascii) : Z := Z.of_nat (nat_of_ascii c) - 48.

Fixpoint skip_white_space (s : list ascii) : list ascii :=
  match s with
  | c :: s' => if white_space c then skip_white_space s' else s
  | [] => []
  end.

(** The longest run of decimal digits in front of [s], and what follows. *)
Fixpoint span_digits (s : list ascii) : list ascii * list ascii :=
  match s with
  | c :: s' =>
      if is_digit c
      then let '(ds, rest) := span_digits s' in (c :: ds, rest)
      else ([], s)
  | [] => ([], [])
  end.

Definition digits_value (ds : list ascii) : Z :=
  fold_left (fun acc c => 10 * acc + digit_value c)%Z ds 0%Z.

Fixpoint starts_with (p : string) (s : list ascii) : bool :=
  match p, s with
  | EmptyString, _ => true
  | String c p', c' :: s' => Ascii.eqb c c' && starts_with p' s'
  | String _ _, [] => false
  end.

(** An optional sign: whether it is a minus, and what follows. *)
Definition read_sign (s : list ascii) : bool * list ascii :=
  match s with
  | c :: s' =>
      if Ascii.eqb c "-" then (true, s')
      else if Ascii.eqb c "+" then (false, s')
      else (false, s)
  | [] => (false, [])
  end.

(** The value of an ExponentPart in front of [s], 0 when there is none. *)
Definition exponent_part (s : list ascii) : Z :=
  match s with
  | c :: s' =>
      if Ascii.eqb c "e" || Ascii.eqb c "E" then
        let '(neg, s'') := read_sign s' in
        match span_digits s'' with
        | ([], _) => 0%Z
        | (ds, _) => if neg then (- digits_value ds)%Z else digits_value ds
        end
      else 0%Z
  | [] => 0%Z
  end.

(** The binary64 nearest to [m * 10 ^ e10], [m >= 0], with the sign [neg]. *)
Definition decimal_to_number (neg : bool) (m e10 : Z) : number :=
  if (m =? 0)%Z then (if neg then PrimFloat.neg_zero else PrimFloat.zero)
  else
    let num := if (0 <=? e10)%Z then (m * 10 ^ e10)%Z else m in
    let den := if (0 <=? e10)%Z then 1%Z else (10 ^ (- e10))%Z in
    SF2Prim (SFdiv prec emax (S754_finite neg (Z.to_pos num) 0)
                             (S754_finite false (Z.to_pos den) 0)).

Definition parseFloat (input : string) : number :=
  let s0 := skip_white_space (list_ascii_of_string input) in
  let '(neg, s1) := read_sign s0 in
  if starts_with "Infinity" s1
  then (if neg then PrimFloat.neg_infinity else PrimFloat.infinity)
  else
    let '(ip, s2) := span_digits s1 in
    let '(fp, s3) :=
      match s2 with
      | c :: s2' => if Ascii.eqb c "." then span_digits s2' else ([], s2)
      | [] => ([], s2)
      end in
    match ip ++ fp with
    | [] => PrimFloat.nan
    | ds =>
        decimal_to_number neg (digits_value ds)
          (exponent_part s3 - Z.of_nat (List.length fp))
    end.

(** [parseFloat(m[1])]: an undefined argument is converted to the string
    [undefined], which has no numeric prefix. *)
Definition parseFloat_arg (arg : option string) : number :=
  match arg with
  | Some s => parseFloat s
  | None => PrimFloat.nan
  end.

(* ================================================================== *)
(** * The new-schema API client: data *)

(** [interface ApiMonitor] *)
Module ApiMonitor.
Record t : Type := mk {
  id : string;
  name : string;
  formula : string;
  unit : option string;
  description : option string;
  color : option string;
  decimal_places : number;
  enabled : bool;
  value : option number;
  computed_at : string;
  created_at : string;
  updated_at : string
}.
End ApiMonitor.

(** [interface ApiAlertRule] *)
Module ApiAlertRule.
Record t : Type := mk {
  id : string;
  name : string;
  condition : string;
  level : string;
  enabled : bool;
  cooldown_seconds : number;
  actions : list string;
  created_at : string;
  updated_at : string
}.
End ApiAlertRule.

(** [interface MonitorSummary], the shape the views consume. *)
Module MonitorSummary.
Record t : Type := mk {
  monitor_id : string;
  monitor_name : option string;
  monitor_type : option string;
  url : string;
  unit : option string;
  color : option string;
  description : option string;
  tags : option string;
  total_records : number;
  latest_value : option number;
  latest_timestamp : string;
  min_value : option number;
  max_value : option number;
  avg_value : option number;
  change_count : number
}.
End MonitorSummary.

(** [interface AlertConfig] *)
Module AlertConfig.
Record t : Type := mk {
  monitor_id : string;
  upper_threshold : option number;
  lower_threshold : option number;
  alert_level : string;
  created_at : string;
  updated_at : string
}.
End AlertConfig.

(** The JSON body [updateAlertConfig] posts to [/api/alert-rules]. *)
Module AlertRuleBody.
Record t : Type := mk {
  name : string;
  condition : string;
  level : string;
  enabled : bool;
  cooldown_seconds : number;
  actions : list string
}.
End AlertRuleBody.

(** The result of [parseAlertCondition]. *)
Module Parsed.
Record t : Type := mk {
  upper_threshold : option number;
  lower_threshold : option number;
  monitor_id : option string
}.
End Parsed.

(* ================================================================== *)
(** * Promises and exceptions

    An awaited computation either yields a value or throws. *)

Definition Error : Set := string.

Inductive Result (A : Type) : Type :=
| Ok (a : A)
| Throw (e : Error).
Arguments Ok {A} a.
Arguments Throw {A} e.

Definition bind {A B : Type} (m : Result A) (f : A -> Result B) : Result B :=
  match m with
  | Ok a => f a
  | Throw e => Throw e
  end.

(** [try { body } catch (error) { handler }] *)
Definition try_catch {A : Type} (body : Result A) (handler : Error -> Result A)
    : Result A :=
  match body with
  | Ok a => Ok a
  | Throw e => handler e
  end.

(** [await Promise.all([p, q])]: both values, or the error of a rejected
    one. *)
Definition promise_all {A B : Type} (p : Result A) (q : Result B) : Result (A * B) :=
  match p, q with
  | Ok a, Ok b => Ok (a, b)
  | Throw e, _ => Throw e
  | Ok _, Throw e => Throw e
  end.

Notation "x <- m ;; k" := (bind m (fun x => k))
  (at level 61, m at next level, right associativity).
Notation "' pat <- m ;; k" := (bind m (fun x => match x with pat => k end))
  (at level 61, pat pattern, m at next level, right associativity).

(** What [this.request] resolves or rejects with, per endpoint used by the
    methods below. *)
Record Upstream : Type := mkUpstream {
  (* GET /api/monitors *)
  request_monitors : Result (list ApiMonitor.t);
  (* GET /api/alert-rules *)
  request_alert_rules : Result (list ApiAlertRule.t);
  (* POST /api/alert-rules with a JSON body *)
  request_create_alert_rule : AlertRuleBody.t -> Result ApiAlertRule.t
}.

(* ================================================================== *)
(** * The new-schema API client: methods *)

(** [private transformMonitor(apiMonitor)] *)
Definition transformMonitor (apiMonitor : ApiMonitor.t) : MonitorSummary.t :=
  {| MonitorSummary.monitor_id := ApiMonitor.id apiMonitor;
     MonitorSummary.monitor_name := Some (ApiMonitor.name apiMonitor);
     MonitorSummary.monitor_type := Some "monitor";
     MonitorSummary.url := "";
     MonitorSummary.unit := ApiMonitor.unit apiMonitor;
     MonitorSummary.color := ApiMonitor.color apiMonitor;
     MonitorSummary.description := ApiMonitor.description apiMonitor;
     MonitorSummary.tags := None;
     MonitorSummary.total_records := 0%float;
     MonitorSummary.latest_value := ApiMonitor.value apiMonitor;
     MonitorSummary.latest_timestamp :=
       string_or (Some (ApiMonitor.computed_at apiMonitor))
                 (ApiMonitor.updated_at apiMonitor);
     MonitorSummary.min_value := None;
     MonitorSummary.max_value := None;
     MonitorSummary.avg_value := None;
     MonitorSummary.change_count := 0%float |}.

(** [[
async getMonitors() {
  try {
    const apiMonitors = await this.request("/api/monitors");
    return apiMonitors.map((m) => this.transformMonitor(m));
  } catch (error) { return []; }
}
]] *)
Definition getMonitors (up : Upstream) : Result (list MonitorSummary.t) :=
  try_catch
    (apiMonitors <- request_monitors up ;;
     Ok (map transformMonitor apiMonitors))
    (fun _ => Ok []).

(** [private parseAlertCondition(condition, monitorId?)] *)
Definition parseAlertCondition (condition : string) (monitorId : option string)
    : Parsed.t :=
  let monitorIdMatch := string_match condition monitorId_re in
  let monitor_id :=
    match monitorIdMatch with
    | Some m => group 1 m
    | None => None
    end in
  if string_truthy monitorId && string_truthy monitor_id
     && negb (match monitor_id, monitorId with
              | Some a, Some b => String.eqb a b
              | _, _ => false
              end)
  then {| Parsed.upper_threshold := None;
          Parsed.lower_threshold := None;
          Parsed.monitor_id := None |}
  else
    let upperMatch := string_match condition upper_re in
    let lowerMatch := string_match condition lower_re in
    let upper_threshold :=
      match upperMatch with
      | Some m => Some (parseFloat_arg (group 1 m))
      | None => None
      end in
    let lower_threshold :=
      match lowerMatch with
      | Some m => Some (parseFloat_arg (group 1 m))
      | None => None
      end in
    {| Parsed.upper_threshold := upper_threshold;
       Parsed.lower_threshold := lower_threshold;
       Parsed.monitor_id := monitor_id |}.

(** The object literal pushed onto [configs]. *)
Definition config_for (monitor : ApiMonitor.t) (upper_threshold lower_threshold : option number)
    (rule : ApiAlertRule.t) : AlertConfig.t :=
  {| AlertConfig.monitor_id := ApiMonitor.id monitor;
     AlertConfig.upper_threshold := upper_threshold;
     AlertConfig.lower_threshold := lower_threshold;
     AlertConfig.alert_level := ApiAlertRule.level rule;
     AlertConfig.created_at := ApiAlertRule.created_at rule;
     AlertConfig.updated_at := ApiAlertRule.updated_at rule |}.

Definition is_null {A : Type} (o : option A) : bool :=
  match o with
  | None => true
  | Some _ => false
  end.

(** One iteration of [for (const rule of alertRules)]: the array [configs]
    after the body has run on [rule]. *)
Definition process_rule (monitors : list ApiMonitor.t)
    (configs : list AlertConfig.t) (rule : ApiAlertRule.t) : list AlertConfig.t :=
  if negb (ApiAlertRule.enabled rule) then configs            (* continue *)
  else
    let p := parseAlertCondition (ApiAlertRule.condition rule) None in
    let upper_threshold := Parsed.upper_threshold p in
    let lower_threshold := Parsed.lower_threshold p in
    let monitor_id := Parsed.monitor_id p in
    if is_null upper_threshold && is_null lower_threshold then configs  (* continue *)
    else if string_truthy monitor_id then
      match find (fun m => match monitor_id with
                           | Some mid => String.eqb (ApiMonitor.id m) mid
                           | None => false
                           end) monitors with
      | Some monitor =>
          configs ++ [config_for monitor upper_threshold lower_threshold rule]
      | None => configs
      end
    else
      fold_left
        (fun configs monitor =>
           configs ++ [config_for monitor upper_threshold lower_threshold rule])
        monitors configs.

(** [[
async getAlertConfigs() {
  try {
    const [alertRules, monitors] = await Promise.all([
      this.request("/api/alert-rules"), this.request("/api/monitors")]);
    const configs = [];
    for (const rule of alertRules) { ... }
    return configs;
  } catch (error) { return []; }
}
]] *)
Definition getAlertConfigs (up : Upstream) : Result (list AlertConfig.t) :=
  try_catch
    ('(alertRules, monitors) <-
        promise_all (request_alert_rules up) (request_monitors up) ;;
     Ok (fold_left (process_rule monitors) alertRules []))
    (fun _ => Ok []).

(** [conditions.join(sep)] *)
Fixpoint join (sep : string) (parts : list string) : string :=
  match parts with
  | [] => ""
  | [p] => p
  | p :: rest => (p ++ sep ++ join sep rest)%string
  end.

Section UpdateAlertConfig.

(** Number::toString, the conversion a template literal applies to a
    number: a host built-in, taken as a parameter. *)
Variable NumberToString : number -> string.

(** [[
async updateAlertConfig(monitorId, upperThreshold?, lowerThreshold?, alertLevel = 'medium') {
const conditions = [];
if (upperThreshold !== undefined) conditions.push(`value > ${upperThreshold}`);
if (lowerThreshold !== undefined) conditions.push(`value < ${lowerThreshold}`);
const condition = conditions.join(' OR ');
try {
  const rule = await this.request('/api/alert-rules', { method: 'POST', body: ... });
  return { monitor_id: monitorId, upper_threshold: upperThreshold || null, ... };
} catch (error) { throw error; }
}
]] *)
(** The first half of the method: the body of the POST request. *)
Definition alert_rule_body (monitorId : string)
    (upperThreshold lowerThreshold : option number) (alertLevel : string)
    : AlertRuleBody.t :=
  let conditions : list string := [] in
  let conditions :=
    match upperThreshold with
    | Some u => conditions ++ [("value > " ++ NumberToString u)%string]
    | None => conditions
    end in
  let conditions :=
    match lowerThreshold with
    | Some l => conditions ++ [("value < " ++ NumberToString l)%string]
    | None => conditions
    end in
  let condition := join " OR " conditions in
  {| AlertRuleBody.name := ("Alert for " ++ monitorId)%string;
     AlertRuleBody.condition := condition;
     AlertRuleBody.level := alertLevel;
     AlertRuleBody.enabled := true;
     AlertRuleBody.cooldown_seconds := 300%float;
     AlertRuleBody.actions := [] |}.

Definition updateAlertConfig (up : Upstream) (monitorId : string)
    (upperThreshold lowerThreshold : option number)
    (alertLevel : option string) : Result AlertConfig.t :=
  let alertLevel := match alertLevel with Some l => l | None => "medium" end in
  try_catch
    (rule <- request_create_alert_rule up
               (alert_rule_body monitorId upperThreshold lowerThreshold alertLevel) ;;
     Ok {| AlertConfig.monitor_id := monitorId;
           AlertConfig.upper_threshold := number_or_null upperThreshold;
           AlertConfig.lower_threshold := number_or_null lowerThreshold;
           AlertConfig.alert_level := ApiAlertRule.level rule;
           AlertConfig.created_at := ApiAlertRule.created_at rule;
           AlertConfig.updated_at := ApiAlertRule.updated_at rule |})
    (fun error => Throw error).

End UpdateAlertConfig.

(* ================================================================== *)
(** * The custom sort of the two list views *)

(** [interface AlertItem] of src/view-alerts.tsx *)
Module AlertItem.
Record t : Type := mk {
  monitor : MonitorSummary.t;
  config : AlertConfig.t;
  isActive : bool
}.
End AlertItem.

(** [Array.prototype.indexOf] on an array of strings: the first index
    holding [x], or -1. *)
Fixpoint indexOf_from (i : Z) (l : list string) (x : string) : Z :=
  match l with
  | [] => (-1)%Z
  | y :: l' => if String.eqb y x then i else indexOf_from (i + 1)%Z l' x
  end.

Definition indexOf (l : list string) (x : string) : Z := indexOf_from 0%Z l x.

(** [Array.prototype.sort(comparefn)].  The language requires the sort to
    be stable and fixes its result for a consistent comparator, for which
    all stable sorts agree; it is run here as an insertion sort that moves
    an element behind the ones it compares greater than. *)
Fixpoint sort_insert {A : Type} (comparefn : A -> A -> Z) (x : A) (sorted : list A)
    : list A :=
  match sorted with
  | [] => [x]
  | y :: rest =>
      if (0 <? comparefn x y)%Z
      then y :: sort_insert comparefn x rest
      else x :: sorted
  end.

Definition array_sort {A : Type} (comparefn : A -> A -> Z) (l : list A) : list A :=
  fold_right (sort_insert comparefn) [] l.

Section Sorter.

(** [String.prototype.toLowerCase] and [String.prototype.localeCompare]
    depend on the host and its locale; they are parameters. *)
Variable toLowerCase : string -> string.
Variable localeCompare : string -> string -> Z.

(** [(m.monitor_name || m.monitor_id).toLowerCase()] *)
Definition lower_name (m : MonitorSummary.t) : string :=
  toLowerCase (string_or (MonitorSummary.monitor_name m) (MonitorSummary.monitor_id m)).

(** The comparator of [sortedMonitors], [case "custom"]
    (src/list-monitors.tsx). *)
Definition compareMonitorsCustom (customOrder : list string)
    (a b : MonitorSummary.t) : Z :=
  let indexA := indexOf customOrder (MonitorSummary.monitor_id a) in
  let indexB := indexOf customOrder (MonitorSummary.monitor_id b) in
  if negb (indexA =? -1)%Z && negb (indexB =? -1)%Z then (indexA - indexB)%Z
  else if negb (indexA =? -1)%Z then (-1)%Z
  else if negb (indexB =? -1)%Z then 1%Z
  else
    let nameA := lower_name a in
    let nameB := lower_name b in
    localeCompare nameA nameB.

(** The comparator of [sortedAlertItems], [case "custom"]
    (src/view-alerts.tsx). *)
Definition compareAlertItemsCustom (customOrder : list string)
    (a b : AlertItem.t) : Z :=
  let indexA := indexOf customOrder (MonitorSummary.monitor_id (AlertItem.monitor a)) in
  let indexB := indexOf customOrder (MonitorSummary.monitor_id (AlertItem.monitor b)) in
  if negb (indexA =? -1)%Z && negb (indexB =? -1)%Z then (indexA - indexB)%Z
  else if negb (indexA =? -1)%Z then (-1)%Z
  else if negb (indexB =? -1)%Z then 1%Z
  else if negb (Bool.eqb (AlertItem.isActive a) (AlertItem.isActive b))
  then (if AlertItem.isActive a then (-1)%Z else 1%Z)
  else
    let nameA := lower_name (AlertItem.monitor a) in
    let nameB := lower_name (AlertItem.monitor b) in
    localeCompare nameA nameB.

(** [sortedMonitors] with [sortBy = "custom"]:
    [monitors ? [...monitors].sort(...) : []]. *)
Definition sortedMonitors (customOrder : list string)
    (monitors : option (list MonitorSummary.t)) : list MonitorSummary.t :=
  match monitors with
  | Some ms => array_sort (compareMonitorsCustom customOrder) ms
  | None => []
  end.

(** [sortedAlertItems] with [sortBy = "custom"]:
    [[...alertItems].sort(...)]. *)
Definition sortedAlertItems (customOrder : list string)
    (alertItems : list AlertItem.t) : list AlertItem.t :=
  array_sort (compareAlertItemsCustom customOrder) alertItems.

End Sorter.

(** The configs [getAlertConfigs] builds from [alertRules] alone, given the
    monitor list: the loop of the method started on an empty array. *)
Definition emitted (monitors : list ApiMonitor.t) (alertRules : list ApiAlertRule.t)
    : list AlertConfig.t :=
  fold_left (process_rule monitors) alertRules [].

(** [haystack.includes(needle)] *)
Fixpoint includes_at (needle : list ascii) (haystack : list ascii) : bool :=
  match needle, haystack with
  | [], _ => true
  | c :: n', c' :: h' => Ascii.eqb c c' && includes_at n' h'
  | _ :: _, [] => false
  end.

Fixpoint includes_from (needle haystack : list ascii) : bool :=
  includes_at needle haystack ||
  match haystack with
  | [] => false
  | _ :: h' => includes_from needle h'
  end.

Definition includes (haystack needle : string) : bool :=
  includes_from (list_ascii_of_string needle) (list_ascii_of_string haystack).

(** A well-formed pattern without capturing groups. *)
Fixpoint groupless (r : regex) : bool :=
  match r with
  | Eps | Lit _ | Cls _ => true
  | Cat r1 r2 | Alt r1 r2 => groupless r1 && groupless r2
  | Star r' | Plus r' => groupless r'
  | Grp _ _ => false
  end.

(** What a successful run of a matcher tells about its continuation: it
    was entered on a suffix no longer than the input, the captures
    untouched. *)
Definition passes_on (m : list ascii -> captures -> cont -> option (list ascii * captures))
    : Prop :=
  forall s caps k res,
    m s caps k = Some res ->
    exists s', List.length s' <= List.length s /\ k s' caps = Some res.

(** [n] is the first position of [id] in the list, counted from 0: what
    [Array.prototype.indexOf] is to answer for an id that is listed. *)
Definition first_position (l : list string) (id : string) (n : nat) : Prop :=
  nth_error l n = Some id /\ forall m, m < n -> nth_error l m <> Some id.

(** An item whose monitor id is in the custom-order list. *)
Definition listed (customOrder : list string) (id : string) : Prop :=
  In id customOrder.

(** The order the custom sort is to establish between an item with key
    [ka] placed in front of an item with key [kb]: no unlisted item in
    front of a listed one, listed items by position in the list. *)
Definition custom_before (customOrder : list string) (ka kb : string) : Prop :=
  (listed customOrder kb -> listed customOrder ka) /\
  (listed customOrder ka -> listed customOrder kb ->
   (indexOf customOrder ka <= indexOf customOrder kb)%Z).

(* ================================================================== *)
(** * Sample data

    Concrete upstream answers on which the statements below are run. *)

Definition sample_monitor (id : string) (value : option number) : ApiMonitor.t :=
  {| ApiMonitor.id := id;
     ApiMonitor.name := id;
     ApiMonitor.formula := "1";
     ApiMonitor.unit := None;
     ApiMonitor.description := None;
     ApiMonitor.color := None;
     ApiMonitor.decimal_places := 2%float;
     ApiMonitor.enabled := true;
     ApiMonitor.value := value;
     ApiMonitor.computed_at := "2024-01-01T00:00:00";
     ApiMonitor.created_at := "2024-01-01T00:00:00";
     ApiMonitor.updated_at := "2024-01-01T00:00:00" |}.

Definition sample_rule (condition : string) (enabled : bool) : ApiAlertRule.t :=
  {| ApiAlertRule.id := "rule";
     ApiAlertRule.name := "rule";
     ApiAlertRule.condition := condition;
     ApiAlertRule.level := "high";
     ApiAlertRule.enabled := enabled;
     ApiAlertRule.cooldown_seconds := 300%float;
     ApiAlertRule.actions := [];
     ApiAlertRule.created_at := "2024-01-01T00:00:00";
     ApiAlertRule.updated_at := "2024-01-02T00:00:00" |}.

(** An upstream that serves the given rules and monitors and accepts every
    new rule. *)
Definition sample_upstream (alertRules : list ApiAlertRule.t)
    (monitors : list ApiMonitor.t) : Upstream :=
  {| request_monitors := Ok monitors;
     request_alert_rules := Ok alertRules;
     request_create_alert_rule := fun body =>
       Ok {| ApiAlertRule.id := "new";
             ApiAlertRule.name := AlertRuleBody.name body;
             ApiAlertRule.condition := AlertRuleBody.condition body;
             ApiAlertRule.level := AlertRuleBody.level body;
             ApiAlertRule.enabled := AlertRuleBody.enabled body;
             ApiAlertRule.cooldown_seconds := AlertRuleBody.cooldown_seconds body;
             ApiAlertRule.actions := AlertRuleBody.actions body;
             ApiAlertRule.created_at := "2024-01-03T00:00:00";
             ApiAlertRule.updated_at := "2024-01-03T00:00:00" |} |}.

(** An upstream whose every request is rejected. *)
Definition failing_upstream : Upstream :=
  {| request_monitors := Throw "API request failed: 500 Internal Server Error";
     request_alert_rules := Throw "API request failed: 500 Internal Server Error";
     request_create_alert_rule := fun _ =>
       Throw "API request failed: 500 Internal Server Error" |}.

Definition three_monitors : list ApiMonitor.t :=
  [sample_monitor "m1" (Some 150%float);
   sample_monitor "m2" None;
   sample_monitor "m3" (Some 7%float)].

(** A stand-in for Number::toString, right on the zeros, NaN and the
    infinities, which the language treats before any digit is produced;
    other values are not printed. *)
Definition sample_NumberToString (x : number) : string :=
  if PrimFloat.eqb x 0%float then "0"
  else if PrimFloat.is_nan x then "NaN"
  else if PrimFloat.eqb x PrimFloat.infinity then "Infinity"
  else if PrimFloat.eqb x PrimFloat.neg_infinity then "-Infinity"
  else "#".

(** Stand-ins for the two string built-ins of the comparators: no case
    folding, and the code-unit order. *)
Definition sample_toLowerCase (s : string) : string := s.

Definition sample_localeCompare (a b : string) : Z :=
  match String.compare a b with
  | Lt => (-1)%Z
  | Eq => 0%Z
  | Gt => 1%Z
  end.

Definition sample_summary (id : string) : MonitorSummary.t :=
  transformMonitor (sample_monitor id None).

Definition sample_item (id : string) (isActive : bool) : AlertItem.t :=
  {| AlertItem.monitor := sample_summary id;
     AlertItem.config :=
       {| AlertConfig.monitor_id := id;
          AlertConfig.upper_threshold := Some 100%float;
          AlertConfig.lower_threshold := None;
          AlertConfig.alert_level := "high";
          AlertConfig.created_at := "2024-01-01T00:00:00";
          AlertConfig.updated_at := "2024-01-02T00:00:00" |};
     AlertItem.isActive := isActive |}.

(* ================================================================== *)
(** * Comma-separated preferences and tag input

    The views read the [monitorOrder] and [menuBarMonitors] preferences,
    and the tag form reads its text field, with one and the same
    expression: [s.split(",").map((id) => id.trim()).filter((id) => id.length > 0)]. *)

(** [s.split(sep)] for a one-character separator, on characters. *)
Fixpoint split_chars (sep : ascii) (s : list ascii) : list (list ascii) :=
  match s with
  | [] => [[]]
  | c :: s' =>
      if Ascii.eqb c sep then [] :: split_chars sep s'
      else
        match split_chars sep s' with
        | part :: parts => (c :: part) :: parts
        | [] => [[c]]
        end
  end.

Definition split (s : string) (sep : ascii) : list string :=
  map string_of_list_ascii (split_chars sep (list_ascii_of_string s)).

(** [String.prototype.trim]: white space and line terminators are removed
    at both ends. *)
Definition trim_chars (s : list ascii) : list ascii :=
  rev (skip_white_space (rev (skip_white_space s))).

Definition trim (s : string) : string :=
  string_of_list_ascii (trim_chars (list_ascii_of_string s)).

(** [s.split(",").map((id) => id.trim()).filter((id) => id.length > 0)] *)
Definition split_trim_filter (s : string) : list string :=
  filter (fun id => Nat.ltb 0 (String.length id)) (map trim (split s ",")).

(** [const customOrder = preferences.monitorOrder?.split(",")... || []]
    (src/list-monitors.tsx, src/view-alerts.tsx, the menu bar), and
    [monitorIds] of the menu bar from [preferences.menuBarMonitors]. *)
Definition customOrder_of (monitorOrder : option string) : list string :=
  match monitorOrder with
  | Some s => split_trim_filter s
  | None => []
  end.

(** [EditTagsForm]: the text field starts as [currentTags.join(", ")] and
    [handleSubmit] turns the text into the tags to store. *)
Definition tagsInput_initial (currentTags : list string) : string :=
  join ", " currentTags.

Definition tags_of_input (tagsInput : string) : list string :=
  split_trim_filter tagsInput.

(** An entry as the expression leaves it: not empty, without a comma,
    without white space at either end. *)
Definition clean_entry (id : string) : Prop :=
  let cs := list_ascii_of_string id in
  cs <> [] /\
  ~ In ","%char cs /\
  (forall c rest, cs = c :: rest -> white_space c = false) /\
  (forall front c, cs = front ++ [c] -> white_space c = false).

(** [clean_entry], computed. *)
Definition clean_entryb (id : string) : bool :=
  match list_ascii_of_string id with
  | [] => false
  | c :: rest =>
      negb (existsb (Ascii.eqb ",") (c :: rest))
      && negb (white_space c)
      && negb (white_space (last (c :: rest) c))
  end.

(* ================================================================== *)
(** * The other sort strategies and the joining of monitors and configs *)

(** A [Map] keyed by strings: the entries in insertion order, each key
    once.  [set] overwrites the value of a key that is present and
    appends a new key. *)
Definition JsMap (V : Type) : Type := list (string * V).

Fixpoint Map_set {V : Type} (m : JsMap V) (key : string) (v : V) : JsMap V :=
  match m with
  | [] => [(key, v)]
  | (k, v') :: m' =>
      if String.eqb k key then (k, v) :: m' else (k, v') :: Map_set m' key v
  end.

Fixpoint Map_get {V : Type} (m : JsMap V) (key : string) : option V :=
  match m with
  | [] => None
  | (k, v) :: m' => if String.eqb k key then Some v else Map_get m' key
  end.

(** [new Map(entries)], and equally a fresh map filled by
    [entries.forEach(([k, v]) => map.set(k, v))]. *)
Definition Map_of_entries {V : Type} (entries : list (string * V)) : JsMap V :=
  fold_left (fun m kv => Map_set m (fst kv) (snd kv)) entries [].

(** [new Map(alerts.map((a) => [a.monitor_id, a]))] (src/view-alerts.tsx,
    the menu bar) and the [alertMap] filled by [forEach]
    (src/list-monitors.tsx). *)
Definition alertMap_of (alerts : list AlertConfig.t) : JsMap AlertConfig.t :=
  Map_of_entries (map (fun a => (AlertConfig.monitor_id a, a)) alerts).

(** [[
const alertItems = [];
if (monitors && alerts) {
  const alertMap = new Map(alerts.map((a) => [a.monitor_id, a]));
  monitors.forEach((monitor) => {
    const config = alertMap.get(monitor.monitor_id);
    if (config) {
      const isActive = isValueOutOfRange(monitor.latest_value,
                         config.upper_threshold, config.lower_threshold);
      alertItems.push({ monitor, config, isActive });
    }
  });
}
]] *)
Definition alertItems (monitors : option (list MonitorSummary.t))
    (alerts : option (list AlertConfig.t)) : list AlertItem.t :=
  match monitors, alerts with
  | Some monitors, Some alerts =>
      let alertMap := alertMap_of alerts in
      fold_left
        (fun items monitor =>
           match Map_get alertMap (MonitorSummary.monitor_id monitor) with
           | Some config =>
               let isActive :=
                 isValueOutOfRange (MonitorSummary.latest_value monitor)
                   (AlertConfig.upper_threshold config)
                   (AlertConfig.lower_threshold config) in
               items ++ [ {| AlertItem.monitor := monitor;
                             AlertItem.config := config;
                             AlertItem.isActive := isActive |} ]
           | None => items
           end)
        monitors []
  | _, _ => []
  end.

(** [activeAlerts] and [configuredAlerts], the two sections of the alerts
    view. *)
Definition activeAlerts (sorted : list AlertItem.t) : list AlertItem.t :=
  filter (fun item => AlertItem.isActive item) sorted.

Definition configuredAlerts (sorted : list AlertItem.t) : list AlertItem.t :=
  filter (fun item => negb (AlertItem.isActive item)) sorted.

(** What [levelOrder[key]] evaluates to, [levelOrder] being the object
    literal [{ critical: 0, high: 1, medium: 2, low: 3 }]: the number of
    an own key, the function or object inherited from [Object.prototype]
    for the name of one of its properties, and undefined otherwise. *)
Inductive level_value : Type :=
| LevelNumber (n : Z)
| LevelInherited (key : string).

Definition Object_prototype_keys : list string :=
  ["constructor"; "hasOwnProperty"; "isPrototypeOf"; "propertyIsEnumerable";
   "toLocaleString"; "toString"; "valueOf"; "__proto__";
   "__defineGetter__"; "__defineSetter__"; "__lookupGetter__"; "__lookupSetter__"].

Definition levelOrder_get (key : string) : option level_value :=
  if String.eqb key "critical" then Some (LevelNumber 0)
  else if String.eqb key "high" then Some (LevelNumber 1)
  else if String.eqb key "medium" then Some (LevelNumber 2)
  else if String.eqb key "low" then Some (LevelNumber 3)
  else if existsb (String.eqb key) Object_prototype_keys then Some (LevelInherited key)
  else None.

(** [levelOrder[level] ?? 4] *)
Definition level_or_4 (level : string) : level_value :=
  match levelOrder_get level with
  | Some v => v
  | None => LevelNumber 4
  end.

(** [aLevel !== bLevel] *)
Definition level_differs (a b : level_value) : bool :=
  match a, b with
  | LevelNumber x, LevelNumber y => negb (x =? y)%Z
  | LevelInherited k1, LevelInherited k2 => negb (String.eqb k1 k2)
  | _, _ => true
  end.

(** [aLevel - bLevel], as the sort reads it: the difference of two
    numbers; with a function or object on either side the difference is
    NaN, which the sort takes for 0. *)
Definition level_minus (a b : level_value) : Z :=
  match a, b with
  | LevelNumber x, LevelNumber y => (x - y)%Z
  | _, _ => 0%Z
  end.

(** A level that is not the name of an inherited property: the lookup
    gives a number for it. *)
Definition plain_level (level : string) : bool :=
  match level_or_4 level with
  | LevelNumber _ => true
  | LevelInherited _ => false
  end.

(** The severity rank of a level, as a table of its own: critical 0,
    high 1, medium 2, low 3, and 4 for any other level. *)
Definition severity_rank (level : string) : Z :=
  if String.eqb level "critical" then 0%Z
  else if String.eqb level "high" then 1%Z
  else if String.eqb level "medium" then 2%Z
  else if String.eqb level "low" then 3%Z
  else 4%Z.

Section OtherStrategies.

Variable toLowerCase : string -> string.
Variable localeCompare : string -> string -> Z.

(** [case "name"] of [sortedMonitors] (src/list-monitors.tsx). *)
Definition compareMonitorsName (a b : MonitorSummary.t) : Z :=
  let nameA := lower_name toLowerCase a in
  let nameB := lower_name toLowerCase b in
  localeCompare nameA nameB.

Definition sortedMonitorsByName (monitors : option (list MonitorSummary.t))
    : list MonitorSummary.t :=
  match monitors with
  | Some ms => array_sort compareMonitorsName ms
  | None => []
  end.




(** [case "status"] of [sortedAlertItems] (src/view-alerts.tsx). *)
Definition compareAlertItemsStatus (a b : AlertItem.t) : Z :=
  if negb (Bool.eqb (AlertItem.isActive a) (AlertItem.isActive b))
  then (if AlertItem.isActive a then (-1)%Z else 1%Z)
  else
    let aLevel := level_or_4 (AlertConfig.alert_level (AlertItem.config a)) in
    let bLevel := level_or_4 (AlertConfig.alert_level (AlertItem.config b)) in
    level_minus aLevel bLevel.

(** [case "name"] of [sortedAlertItems]. *)
Definition compareAlertItemsName (a b : AlertItem.t) : Z :=
  let nameA := lower_name toLowerCase (AlertItem.monitor a) in
  let nameB := lower_name toLowerCase (AlertItem.monitor b) in
  localeCompare nameA nameB.

(** [case "level"] of [sortedAlertItems]. *)
Definition compareAlertItemsLevel (a b : AlertItem.t) : Z :=
  let aLevel := level_or_4 (AlertConfig.alert_level (AlertItem.config a)) in
  let bLevel := level_or_4 (AlertConfig.alert_level (AlertItem.config b)) in
  if level_differs aLevel bLevel then level_minus aLevel bLevel
  else if Bool.eqb (AlertItem.isActive a) (AlertItem.isActive b) then 0%Z
  else if AlertItem.isActive a then (-1)%Z else 1%Z.

Definition sortedAlertItemsByStatus (items : list AlertItem.t) : list AlertItem.t :=
  array_sort compareAlertItemsStatus items.

Definition sortedAlertItemsByName (items : list AlertItem.t) : list AlertItem.t :=
  array_sort compareAlertItemsName items.

Definition sortedAlertItemsByLevel (items : list AlertItem.t) : list AlertItem.t :=
  array_sort compareAlertItemsLevel items.

(** The menu bar: [(a.monitor_name || a.monitor_id || "").toLowerCase()]. *)
Definition menu_lower_name (m : MonitorSummary.t) : string :=
  toLowerCase
    (string_or
       (Some (string_or (MonitorSummary.monitor_name m) (MonitorSummary.monitor_id m)))
       "").

(** [sortByCustomOrder] of the menu bar. *)
Definition sortByCustomOrder (customOrder : list string)
    (items : list MonitorSummary.t) : list MonitorSummary.t :=
  if Nat.eqb (List.length customOrder) 0 then
    array_sort
      (fun a b =>
         let nameA := menu_lower_name a in
         let nameB := menu_lower_name b in
         localeCompare nameA nameB)
      items
  else
    array_sort
      (fun a b =>
         let indexA := indexOf customOrder (MonitorSummary.monitor_id a) in
         let indexB := indexOf customOrder (MonitorSummary.monitor_id b) in
         if negb (indexA =? -1)%Z && negb (indexB =? -1)%Z then (indexA - indexB)%Z
         else if negb (indexA =? -1)%Z then (-1)%Z
         else if negb (indexB =? -1)%Z then 1%Z
         else
           let nameA := menu_lower_name a in
           let nameB := menu_lower_name b in
           localeCompare nameA nameB)
      items.

End OtherStrategies.

(** A comparison of strings that orders them consistently: what
    [localeCompare] is for any locale. *)
Definition consistent (localeCompare : string -> string -> Z) : Prop :=
  (forall a b c,
     (localeCompare a b <= 0)%Z -> (localeCompare b c <= 0)%Z ->
     (localeCompare a c <= 0)%Z) /\
  (forall a b, (0 < localeCompare a b)%Z -> (localeCompare b a <= 0)%Z).

(** A stand-in for [localeCompare] that orders strings by length. *)
Definition sample_lengthCompare (a b : string) : Z :=
  (Z.of_nat (String.length a) - Z.of_nat (String.length b))%Z.

(* ================================================================== *)
(** * The menu bar *)

(** [[
const pinnedMonitors = monitorIds
  .map((id) => monitors?.find((m) => m.monitor_id === id))
  .filter((m) => m !== undefined);
]] *)
Definition pinnedMonitors (monitorIds : list string)
    (monitors : option (list MonitorSummary.t)) : list MonitorSummary.t :=
  flat_map
    (fun found : option MonitorSummary.t =>
       match found with Some m => [m] | None => [] end)
    (map (fun id =>
            match monitors with
            | Some ms => find (fun m => String.eqb (MonitorSummary.monitor_id m) id) ms
            | None => None
            end)
         monitorIds).

(** [pinnedMonitors.length > 0 ? pinnedMonitors[currentIndex % pinnedMonitors.length] : undefined] *)
Definition primaryMonitor (pinned : list MonitorSummary.t) (currentIndex : nat)
    : option MonitorSummary.t :=
  if Nat.ltb 0 (List.length pinned)
  then nth_error pinned (currentIndex mod List.length pinned)
  else None.

(** The rotation timer: with more than one pinned monitor an interval
    runs [setCurrentIndex((prev) => (prev + 1) % pinnedMonitors.length)];
    with at most one the effect returns before it starts a timer.  [tick]
    is the index after one period. *)
Definition tick (pinned : list MonitorSummary.t) (prev : nat) : nat :=
  if Nat.leb (List.length pinned) 1 then prev
  else (prev + 1) mod List.length pinned.

(* ================================================================== *)
(** * Orders the sort strategies establish *)

(** The level of an alert item, and whether it is an ordinary level name. *)
Definition item_level (item : AlertItem.t) : string :=
  AlertConfig.alert_level (AlertItem.config item).

Definition item_plain (item : AlertItem.t) : Prop :=
  plain_level (item_level item) = true.

(** An item [a] may stand in front of [b] under the status strategy:
    not an inactive in front of an active one, and by rank among items of
    one status. *)
Definition status_before (a b : AlertItem.t) : Prop :=
  (AlertItem.isActive b = true -> AlertItem.isActive a = true) /\
  (AlertItem.isActive a = AlertItem.isActive b ->
   (severity_rank (item_level a) <= severity_rank (item_level b))%Z).

(** The same for the level strategy: by rank, and within a rank not an
    inactive in front of an active one. *)
Definition level_before (a b : AlertItem.t) : Prop :=
  (severity_rank (item_level a) <= severity_rank (item_level b))%Z /\
  (severity_rank (item_level a) = severity_rank (item_level b) ->
   AlertItem.isActive b = true -> AlertItem.isActive a = true).


(** The config the views use for a monitor id: the last one in the array
    of configs that names it. *)
Definition last_config_for (alerts : list AlertConfig.t) (id : string)
    : option AlertConfig.t :=
  find (fun a => String.eqb (AlertConfig.monitor_id a) id) (rev alerts).


(** Sample alert items of several levels, active and not. *)
Definition sample_item_of_level (id level : string) (isActive : bool) : AlertItem.t :=
  {| AlertItem.monitor := sample_summary id;
     AlertItem.config :=
       {| AlertConfig.monitor_id := id;
          AlertConfig.upper_threshold := Some 100%float;
          AlertConfig.lower_threshold := None;
          AlertConfig.alert_level := level;
          AlertConfig.created_at := "2024-01-01T00:00:00";
          AlertConfig.updated_at := "2024-01-02T00:00:00" |};
     AlertItem.isActive := isActive |}.

Definition sample_alert_items : list AlertItem.t :=
  [sample_item_of_level "m1" "low" false;
   sample_item_of_level "m2" "critical" true;
   sample_item_of_level "m3" "info" false;
   sample_item_of_level "m4" "critical" false;
   sample_item_of_level "m5" "high" true;
   sample_item_of_level "m6" "medium" true].

Definition item_ids (items : list AlertItem.t) : list string :=
  map (fun item => MonitorSummary.monitor_id (AlertItem.monitor item)) items.
(* ================================================================== *)
(** * Printed numbers *)

(** A printed number made of decimal digits and dots only, as
    Number::toString gives for a non-negative number below 1e21 that is
    not tiny. *)
Definition plain_decimal (d : string) : bool :=
  negb (String.eqb d "") && forallb digit_or_dot (list_ascii_of_string d).

(** A printed number such as Number::toString gives for a negative one: a
    minus sign, then characters among which is neither [$] nor [v]. *)
Definition minus_signed (d : string) : bool :=
  match list_ascii_of_string d with
  | c :: rest =>
      Ascii.eqb c "-"
      && forallb (fun c => negb (Ascii.eqb "$" c) && negb (Ascii.eqb "v" c)) rest
  | [] => false
  end.

(** A stand-in for Number::toString that is right on the integers of
    magnitude below 1e21, on NaN and on the infinities; other values are
    not printed. *)
Definition integer_NumberToString (x : number) : string :=
  match Prim2SF x with
  | S754_zero _ => "0"
  | S754_infinity s => if s then "-Infinity" else "Infinity"
  | S754_nan => "NaN"
  | S754_finite s m e =>
      let sign := if s then "-" else "" in
      let magnitude :=
        if (0 <=? e)%Z then Some (Z.pos m * 2 ^ e)%Z
        else if (Z.pos m mod 2 ^ (- e) =? 0)%Z then Some (Z.pos m / 2 ^ (- e))%Z
        else None in
      match magnitude with
      | Some z =>
          if (z <? 10 ^ 21)%Z
          then (sign ++ NilZero.string_of_uint (N.to_uint (Z.to_N z)))%string
          else "#"
      | None => "#"
      end
  end.

(* ================================================================== *)
(** * Runs of the matcher *)

(** The outcome of a greedy repetition of a character class over a run of
    characters of the class that ends at [rest]: the continuation is
    tried after the whole run first, then after ever shorter parts of
    it. *)
Fixpoint star_run (k : cont) (caps : captures) (run rest : list ascii)
    : option (list ascii * captures) :=
  match run with
  | [] => k rest caps
  | c :: run' =>
      match star_run k caps run' rest with
      | Some res => Some res
      | None => k (c :: run' ++ rest) caps
      end
  end.

Definition stops (p : ascii -> bool) (rest : list ascii) : Prop :=
  match rest with
  | [] => True
  | c :: _ => p c = false
  end.

(** The part of the threshold patterns behind the reference:
    [\s*>\s*([0-9.]+)] for the operator [>], and the same for [<]. *)
Definition operator_re (op : ascii) : regex :=
  (Star (Cls white_space) >> Lit op >> Star (Cls white_space)
     >> Grp 1 (Plus (Cls digit_or_dot)))%re.

(** The characters of [value OP d]. *)
Definition clause_chars (op : ascii) (d : list ascii) : list ascii :=
  list_ascii_of_string "value " ++ op :: " "%char :: d.

(** A character at which no monitor reference and no [value] placeholder
    starts. *)
Definition starts_no_reference (c : ascii) : Prop :=
  Ascii.eqb "$" c = false /\ Ascii.eqb "v" c = false.

(** The condition [updateAlertConfig] posts for the given thresholds. *)
Definition saved_condition (NumberToString : number -> string)
    (upperThreshold lowerThreshold : option number) : string :=
  AlertRuleBody.condition
    (alert_rule_body NumberToString "" upperThreshold lowerThreshold "medium").

(* ================================================================== *)
(** * The forms

    [handleSubmit] of a form validates the text fields, calls the API
    client and reports with a toast.  Its outcome here is the list of API
    calls it made, the toast it ends with, and whether it went on to
    [onUpdate] and [pop].  The client method is a parameter: the forms use
    whichever client the module [./api] exports. *)

Inductive Toast : Type :=
| ToastSuccess (title : string)
| ToastFailure (title message : string).

Record FormOutcome (Call : Type) : Type := mkFormOutcome {
  api_calls : list Call;
  final_toast : Toast;
  popped : bool
}.
Arguments mkFormOutcome {Call} _ _ _.
Arguments api_calls {Call} _.
Arguments final_toast {Call} _.
Arguments popped {Call} _.

(** The arguments of [api.updateAlertConfig]. *)
Record AlertCall : Type := mkAlertCall {
  call_monitorId : string;
  call_upper : option number;
  call_lower : option number;
  call_alertLevel : string
}.



(** [text ? parseFloat(text) : undefined] *)
Definition optional_number (text : string) : option number :=
  if String.eqb text "" then None else Some (parseFloat text).

(** [x !== undefined && isNaN(x)] *)
Definition defined_nan (x : option number) : bool :=
  match x with
  | Some v => PrimFloat.is_nan v
  | None => false
  end.

Section Forms.

(** [String(error)] for what the API client throws. *)
Variable String_of_error : Error -> string.

(** [[
async function handleSubmit() {
  try {
    const upper = upperThreshold ? parseFloat(upperThreshold) : undefined;
    const lower = lowerThreshold ? parseFloat(lowerThreshold) : undefined;
    if (upper !== undefined && isNaN(upper)) throw new Error(...);
    if (lower !== undefined && isNaN(lower)) throw new Error(...);
    await api.updateAlertConfig(monitor.monitor_id, upper, lower, alertLevel);
    await showToast({ style: Toast.Style.Success, title: ... });
    onUpdate?.(); pop();
  } catch (error) {
    await showToast({ style: Toast.Style.Failure, title: ..., message: String(error) });
  }
}
]] of [EditAlertForm]. *)
Definition EditAlertForm_handleSubmit
    (api_updateAlertConfig : AlertCall -> Result AlertConfig.t)
    (monitor : MonitorSummary.t) (upperThreshold lowerThreshold alertLevel : string)
    : FormOutcome AlertCall :=
  let upper := optional_number upperThreshold in
  let lower := optional_number lowerThreshold in
  if defined_nan upper then
    mkFormOutcome [] (ToastFailure "Failed to save alert config"
                        "Error: Upper threshold must be a valid number") false
  else if defined_nan lower then
    mkFormOutcome [] (ToastFailure "Failed to save alert config"
                        "Error: Lower threshold must be a valid number") false
  else
    let call := mkAlertCall (MonitorSummary.monitor_id monitor) upper lower alertLevel in
    match api_updateAlertConfig call with
    | Ok _ => mkFormOutcome [call] (ToastSuccess "Alert config saved") true
    | Throw error =>
        mkFormOutcome [call] (ToastFailure "Failed to save alert config"
                                (String_of_error error)) false
    end.


End Forms.


(** A stand-in for [String(error)]: the thrown value is an [Error] with
    the given message. *)
Definition sample_String_of_error (e : Error) : string := ("Error: " ++ e)%string.

(* ================================================================== *)
(** * Theorems *)

(** ** The alert evaluator *)

(** C9: whatever the thresholds, a monitor without a current value is not
    out of range. *)
Theorem isValueOutOfRange_null_value :
  forall upperThreshold lowerThreshold : option number,
    isValueOutOfRange None upperThreshold lowerThreshold = false.
Proof. intros; reflexivity. Qed.

Lemma number_truthy_zero :
  forall x : number, PrimFloat.eqb x 0%float = true -> number_truthy x = false.
Proof. intros x H. unfold number_truthy. rewrite H. reflexivity. Qed.

(** C1 (not met by the code): a lower threshold of 0 is
    skipped by the truthiness test, so [isValueOutOfRange(-1, null, 0)]
    is [false], and with lower threshold 0 and no upper threshold the
    result is [false] for every value, not [v < 0]. *)
Theorem isValueOutOfRange_zero_threshold_ignored :
  isValueOutOfRange (Some (-1)%float) None (Some 0%float) = false /\
  PrimFloat.ltb (-1)%float 0%float = true /\
  (forall v : number, isValueOutOfRange (Some v) None (Some 0%float) = false) /\
  (forall (v : option number) (u : option number),
     isValueOutOfRange v u (Some 0%float) = isValueOutOfRange v u None /\
     isValueOutOfRange v (Some 0%float) u = isValueOutOfRange v None u).
Proof.
  split; [reflexivity|]. split; [reflexivity|]. split; [intro v; reflexivity|].
  intros v u; split.
  - destruct v as [v|]; [|reflexivity].
    destruct u as [u|]; reflexivity.
  - destruct v as [v|]; reflexivity.
Qed.

(** With a threshold that is neither zero nor NaN the evaluator compares
    strictly, as the contract says. *)
Lemma isValueOutOfRange_lower_truthy :
  forall v l : number,
    number_truthy l = true ->
    isValueOutOfRange (Some v) None (Some l) = PrimFloat.ltb v l.
Proof.
  intros v l H. unfold isValueOutOfRange. rewrite H. simpl.
  destruct (PrimFloat.ltb v l); reflexivity.
Qed.

Lemma isValueOutOfRange_upper_truthy :
  forall v u : number,
    number_truthy u = true ->
    isValueOutOfRange (Some v) (Some u) None = PrimFloat.ltb u v.
Proof.
  intros v u H. unfold isValueOutOfRange. rewrite H. simpl.
  destruct (PrimFloat.ltb u v); reflexivity.
Qed.

(** ** The matcher *)

Section MatcherFacts.

Lemma star_passes_on :
  forall m, passes_on m -> forall fuel, passes_on (star m fuel).
Proof.
  intros m Hm fuel. induction fuel as [|fuel IH]; intros s caps k res H; simpl in H.
  - exists s. split; [lia | exact H].
  - destruct (m s caps _) as [res'|] eqn:E.
    + injection H as ->.
      apply Hm in E. destruct E as (s1 & Hlen & E).
      destruct (Nat.ltb (List.length s1) (List.length s)); [|discriminate].
      apply IH in E. destruct E as (s' & Hlen' & E).
      exists s'. split; [lia | exact E].
    + exists s. split; [lia | exact H].
Qed.

Lemma rmatch_passes_on :
  forall r, groupless r = true -> passes_on (rmatch r).
Proof.
  induction r as [ |c|p|r1 IH1 r2 IH2|r1 IH1 r2 IH2|r IH|r IH|n r IH];
    intros G s caps k res H; simpl in G.
  - exists s. split; [lia | exact H].
  - simpl in H. destruct s as [|c' s']; [discriminate|].
    destruct (Ascii.eqb c c'); [|discriminate].
    exists s'. split; [simpl; lia | exact H].
  - simpl in H. destruct s as [|c' s']; [discriminate|].
    destruct (p c'); [|discriminate].
    exists s'. split; [simpl; lia | exact H].
  - apply andb_prop in G. destruct G as [G1 G2]. simpl in H.
    apply (IH1 G1) in H. destruct H as (s1 & L1 & H).
    apply (IH2 G2) in H. destruct H as (s2 & L2 & H).
    exists s2. split; [lia | exact H].
  - apply andb_prop in G. destruct G as [G1 G2]. simpl in H.
    destruct (rmatch r1 s caps k) as [res'|] eqn:E.
    + injection H as ->. apply (IH1 G1) in E. exact E.
    + apply (IH2 G2) in H. exact H.
  - change (star (rmatch r) (S (List.length s)) s caps k = Some res) in H.
    apply (star_passes_on _ (IH G)) in H. exact H.
  - change (rmatch r s caps (fun s1 caps1 =>
              star (rmatch r) (S (List.length s1)) s1 caps1 k) = Some res) in H.
    apply (IH G) in H. destruct H as (s1 & L1 & H).
    apply (star_passes_on _ (IH G)) in H. destruct H as (s2 & L2 & H).
    exists s2. split; [lia | exact H].
  - discriminate.
Qed.

Lemma groupless_lits : forall s, groupless (lits s) = true.
Proof. induction s as [|c s IH]; simpl; auto. Qed.

Lemma consumed_nonempty :
  forall c s rest, List.length rest <= List.length s -> consumed (c :: s) rest <> [].
Proof.
  intros c s rest H. unfold consumed.
  replace (List.length (c :: s) - List.length rest)
    with (S (List.length s - List.length rest))
    by (change (List.length (c :: s)) with (S (List.length s)); lia).
  simpl. discriminate.
Qed.

(** A match of the monitor-reference pattern captures a non-empty
    identifier in group 1, and nothing else. *)
Lemma monitorId_re_here :
  forall s rest caps,
    match_here monitorId_re s = Some (rest, caps) ->
    exists txt, txt <> [] /\ caps = [(1, txt)].
Proof.
  intros s rest caps H. unfold match_here, monitorId_re in H.
  change (rmatch (lits "${monitor:" >> ?r)%re s [] ?k)
    with (rmatch (lits "${monitor:") s [] (fun s1 c1 => rmatch r s1 c1 k)) in H.
  apply (rmatch_passes_on _ (groupless_lits _)) in H.
  destruct H as (s1 & _ & H).
  change (rmatch (Cls not_rbrace) s1 []
            (fun s2 c2 => star (rmatch (Cls not_rbrace)) (S (List.length s2)) s2 c2
               (fun s3 c3 => rmatch (Lit "}") s3 ((1, consumed s1 s3) :: c3)
                               (fun rest caps => Some (rest, caps))))
          = Some (rest, caps)) in H.
  destruct s1 as [|c s1]; [discriminate|].
  cbn [rmatch] in H.
  destruct (not_rbrace c); [|discriminate].
  apply (star_passes_on (rmatch (Cls not_rbrace))) in H;
    [|apply rmatch_passes_on; reflexivity].
  destruct H as (s2 & L2 & H).
  destruct s2 as [|c2 s2]; [discriminate|].
  cbn [rmatch] in H.
  destruct (Ascii.eqb "}" c2); [|discriminate].
  injection H as _ <-.
  eexists. split; [|reflexivity].
  apply consumed_nonempty. exact L2.
Qed.

Lemma search_eq :
  forall r s,
    search r s =
    match match_here r s with
    | Some (_, caps) => Some caps
    | None => match s with [] => None | _ :: s' => search r s' end
    end.
Proof. intros r [|c s]; reflexivity. Qed.

Lemma monitorId_re_search :
  forall s caps,
    search monitorId_re s = Some caps ->
    exists txt, txt <> [] /\ caps = [(1, txt)].
Proof.
  induction s as [|c s IH]; intros caps H; rewrite search_eq in H.
  - destruct (match_here monitorId_re []) as [[rest caps']|] eqn:E; [|discriminate].
    injection H as <-. eapply monitorId_re_here; eauto.
  - destruct (match_here monitorId_re (c :: s)) as [[rest caps']|] eqn:E.
    + injection H as <-. eapply monitorId_re_here; eauto.
    + apply IH; exact H.
Qed.

Lemma string_of_list_ascii_nonempty :
  forall l, l <> [] -> string_of_list_ascii l <> "".
Proof. intros [|c l] H; [congruence | simpl; discriminate]. Qed.

End MatcherFacts.

(** The identifier [parseAlertCondition] extracts is never the empty
    string, so it passes every truthiness test of the code. *)
Lemma parseAlertCondition_monitor_id_truthy :
  forall condition monitorId mid,
    Parsed.monitor_id (parseAlertCondition condition monitorId) = Some mid ->
    string_truthy (Some mid) = true.
Proof.
  intros condition monitorId mid H.
  assert (G : forall o, match string_match condition monitorId_re with
                        | Some m => group 1 m | None => None end = Some o ->
                        string_truthy (Some o) = true).
  { intros o Ho. unfold string_match in Ho.
    destruct (search monitorId_re _) as [caps|] eqn:E; [|discriminate].
    apply monitorId_re_search in E. destruct E as (txt & Hne & ->).
    simpl in Ho. injection Ho as <-.
    apply string_of_list_ascii_nonempty in Hne.
    simpl. apply negb_true_iff. apply String.eqb_neq. exact Hne. }
  unfold parseAlertCondition in H.
  destruct (string_truthy monitorId && _ && _); simpl in H; [discriminate|].
  apply G. exact H.
Qed.

(** ** Condition parsing *)

(** C2: the three reference conditions.  The first two keep a threshold
    and so pass the no-threshold test of [getAlertConfigs]; the third has
    none, and a rule carrying it adds nothing to the configs, whatever its
    other fields and the monitor list. *)
Theorem parseAlertCondition_reference_examples :
  (parseAlertCondition "${monitor:m1} > 100" None =
     {| Parsed.upper_threshold := Some 100%float;
        Parsed.lower_threshold := None;
        Parsed.monitor_id := Some "m1" |}
   /\ is_null (Some 100%float) && is_null (@None number) = false)
  /\
  (parseAlertCondition "value < 5" None =
     {| Parsed.upper_threshold := None;
        Parsed.lower_threshold := Some 5%float;
        Parsed.monitor_id := None |}
   /\ is_null (@None number) && is_null (Some 5%float) = false)
  /\
  (parseAlertCondition "foo bar" None =
     {| Parsed.upper_threshold := None;
        Parsed.lower_threshold := None;
        Parsed.monitor_id := None |}
   /\ forall monitors configs id name level enabled cooldown actions created updated,
        process_rule monitors configs
          (ApiAlertRule.mk id name "foo bar" level enabled cooldown actions created updated)
        = configs).
Proof.
  split; [split; [vm_compute; reflexivity | reflexivity]|].
  split; [split; [vm_compute; reflexivity | reflexivity]|].
  split; [vm_compute; reflexivity|].
  intros. unfold process_rule. cbn [ApiAlertRule.enabled ApiAlertRule.condition].
  destruct enabled; [|reflexivity].
  cbn [negb].
  replace (parseAlertCondition "foo bar" None)
    with {| Parsed.upper_threshold := None;
            Parsed.lower_threshold := None;
            Parsed.monitor_id := None |} by (vm_compute; reflexivity).
  reflexivity.
Qed.

(** ** Rule expansion *)

Section RuleExpansion.

Variable monitors : list ApiMonitor.t.

Lemma push_each :
  forall (f : ApiMonitor.t -> AlertConfig.t) ms configs,
    fold_left (fun configs monitor => configs ++ [f monitor]) ms configs
    = configs ++ map f ms.
Proof.
  intros f ms. induction ms as [|m ms IH]; intros configs; simpl.
  - rewrite app_nil_r. reflexivity.
  - rewrite IH, <- app_assoc. reflexivity.
Qed.

(** The body of the loop only appends. *)
Lemma process_rule_appends :
  forall configs rule,
    process_rule monitors configs rule = configs ++ process_rule monitors [] rule.
Proof.
  intros configs rule. unfold process_rule.
  destruct (negb (ApiAlertRule.enabled rule)); [rewrite app_nil_r; reflexivity|].
  destruct (is_null _ && is_null _); [rewrite app_nil_r; reflexivity|].
  destruct (string_truthy _).
  - destruct (find _ monitors); [reflexivity | rewrite app_nil_r; reflexivity].
  - rewrite !push_each. reflexivity.
Qed.

Lemma loop_appends :
  forall rules configs,
    fold_left (process_rule monitors) rules configs
    = configs ++ emitted monitors rules.
Proof.
  unfold emitted.
  induction rules as [|rule rules IH]; intros configs; simpl.
  - rewrite app_nil_r. reflexivity.
  - rewrite IH, (IH (process_rule monitors [] rule)).
    rewrite (process_rule_appends configs rule), <- app_assoc. reflexivity.
Qed.

(** The configs of a rule sit between those of the rules in front of it
    and those of the rules behind it. *)
Lemma emitted_split :
  forall rules1 rule rules2,
    emitted monitors (rules1 ++ rule :: rules2)
    = emitted monitors rules1 ++ process_rule monitors [] rule
        ++ emitted monitors rules2.
Proof.
  intros rules1 rule rules2. unfold emitted at 1.
  rewrite fold_left_app. simpl.
  rewrite loop_appends. fold (emitted monitors rules1).
  rewrite (process_rule_appends (emitted monitors rules1) rule), <- app_assoc.
  reflexivity.
Qed.

Lemma process_rule_disabled :
  forall configs rule,
    ApiAlertRule.enabled rule = false ->
    process_rule monitors configs rule = configs.
Proof. intros configs rule H. unfold process_rule. rewrite H. reflexivity. Qed.

Lemma not_both_null :
  forall upper lower : option number,
    upper <> None \/ lower <> None -> is_null upper && is_null lower = false.
Proof. intros [u|] [l|] [H|H]; try reflexivity; congruence. Qed.

Lemma both_null_false :
  forall upper lower : option number,
    is_null upper && is_null lower = false -> upper <> None \/ lower <> None.
Proof.
  intros [u|] [l|] H; [left | left | right | discriminate H]; discriminate.
Qed.

Lemma process_rule_global :
  forall rule upper lower,
    ApiAlertRule.enabled rule = true ->
    parseAlertCondition (ApiAlertRule.condition rule) None =
      {| Parsed.upper_threshold := upper;
         Parsed.lower_threshold := lower;
         Parsed.monitor_id := None |} ->
    upper <> None \/ lower <> None ->
    process_rule monitors [] rule
    = map (fun m => config_for m upper lower rule) monitors.
Proof.
  intros rule upper lower He Hp Ht. unfold process_rule.
  rewrite He, Hp. cbn [negb Parsed.upper_threshold Parsed.lower_threshold
                       Parsed.monitor_id string_truthy].
  rewrite (not_both_null _ _ Ht). rewrite push_each. reflexivity.
Qed.

Lemma find_by_id :
  forall mid,
    match find (fun m => String.eqb (ApiMonitor.id m) mid) monitors with
    | Some monitor => In monitor monitors /\ ApiMonitor.id monitor = mid
    | None => forall m, In m monitors -> ApiMonitor.id m <> mid
    end.
Proof.
  intros mid.
  destruct (find _ monitors) as [monitor|] eqn:E.
  - apply find_some in E. destruct E as [Hin Heq].
    apply String.eqb_eq in Heq. auto.
  - intros m Hin. apply (find_none _ _ E) in Hin.
    apply String.eqb_neq in Hin. exact Hin.
Qed.

Lemma process_rule_scoped :
  forall rule upper lower mid,
    ApiAlertRule.enabled rule = true ->
    parseAlertCondition (ApiAlertRule.condition rule) None =
      {| Parsed.upper_threshold := upper;
         Parsed.lower_threshold := lower;
         Parsed.monitor_id := Some mid |} ->
    upper <> None \/ lower <> None ->
    process_rule monitors [] rule
    = match find (fun m => String.eqb (ApiMonitor.id m) mid) monitors with
      | Some monitor => [config_for monitor upper lower rule]
      | None => []
      end.
Proof.
  intros rule upper lower mid He Hp Ht.
  assert (Hm : string_truthy (Some mid) = true).
  { apply (parseAlertCondition_monitor_id_truthy (ApiAlertRule.condition rule) None).
    rewrite Hp. reflexivity. }
  unfold process_rule.
  rewrite He, Hp. cbn [negb Parsed.upper_threshold Parsed.lower_threshold
                       Parsed.monitor_id].
  rewrite (not_both_null _ _ Ht), Hm.
  destruct (find _ monitors); reflexivity.
Qed.

(** Whatever a rule adds carries a threshold. *)
Lemma process_rule_thresholds :
  forall rule,
    Forall (fun c => AlertConfig.upper_threshold c <> None \/
                     AlertConfig.lower_threshold c <> None)
           (process_rule monitors [] rule).
Proof.
  intros rule. unfold process_rule.
  destruct (negb (ApiAlertRule.enabled rule)); [constructor|].
  set (p := parseAlertCondition _ _).
  destruct (is_null (Parsed.upper_threshold p) && is_null (Parsed.lower_threshold p))
    eqn:E; [constructor|].
  assert (Ht : Parsed.upper_threshold p <> None \/ Parsed.lower_threshold p <> None).
  { destruct (Parsed.upper_threshold p), (Parsed.lower_threshold p);
      [left | left | right | discriminate E]; discriminate. }
  destruct (string_truthy _).
  - destruct (find _ monitors); constructor; [exact Ht | constructor].
  - rewrite push_each. simpl. apply Forall_map.
    apply Forall_forall. intros m _. exact Ht.
Qed.

Lemma emitted_thresholds :
  forall rules,
    Forall (fun c => AlertConfig.upper_threshold c <> None \/
                     AlertConfig.lower_threshold c <> None)
           (emitted monitors rules).
Proof.
  induction rules as [|rule rules IH] using rev_ind.
  - constructor.
  - rewrite emitted_split. rewrite !Forall_app.
    split; [exact IH|]. split; [apply process_rule_thresholds | constructor].
Qed.

End RuleExpansion.

Lemma getAlertConfigs_fetched :
  forall up alertRules monitors,
    request_alert_rules up = Ok alertRules ->
    request_monitors up = Ok monitors ->
    getAlertConfigs up = Ok (emitted monitors alertRules).
Proof.
  intros up alertRules monitors Hr Hm. unfold getAlertConfigs.
  rewrite Hr, Hm. reflexivity.
Qed.

(** C3: an enabled rule with a threshold and no monitor reference yields
    one config per fetched monitor, in the order of the monitor list, each
    with the thresholds of the condition and the level of the rule; they
    stand between the configs of the rules before it and of those after
    it. *)
Theorem getAlertConfigs_global_rule :
  forall up rules1 rule rules2 monitors upper lower,
    request_alert_rules up = Ok (rules1 ++ rule :: rules2) ->
    request_monitors up = Ok monitors ->
    ApiAlertRule.enabled rule = true ->
    parseAlertCondition (ApiAlertRule.condition rule) None =
      {| Parsed.upper_threshold := upper;
         Parsed.lower_threshold := lower;
         Parsed.monitor_id := None |} ->
    is_null upper && is_null lower = false ->
    exists for_rule,
      getAlertConfigs up =
        Ok (emitted monitors rules1 ++ for_rule ++ emitted monitors rules2)
      /\ List.length for_rule = List.length monitors
      /\ map AlertConfig.monitor_id for_rule = map ApiMonitor.id monitors
      /\ Forall (fun c =>
                   AlertConfig.upper_threshold c = upper /\
                   AlertConfig.lower_threshold c = lower /\
                   AlertConfig.alert_level c = ApiAlertRule.level rule)
                for_rule.
Proof.
  intros up rules1 rule rules2 monitors upper lower Hr Hm He Hp Ht.
  exists (map (fun m => config_for m upper lower rule) monitors).
  split; [|split; [|split]].
  - rewrite (getAlertConfigs_fetched _ _ _ Hr Hm), emitted_split.
    rewrite (process_rule_global monitors rule upper lower He Hp).
    + reflexivity.
    + apply both_null_false. exact Ht.
  - apply length_map.
  - rewrite map_map. reflexivity.
  - apply Forall_map, Forall_forall. intros m _. simpl. auto.
Qed.

Lemma getAlertConfigs_global_rule_witness :
  exists for_rule,
    getAlertConfigs
      (sample_upstream [sample_rule "value > 100" true] three_monitors) =
      Ok (emitted three_monitors [] ++ for_rule ++ emitted three_monitors [])
    /\ List.length for_rule = List.length three_monitors
    /\ map AlertConfig.monitor_id for_rule = map ApiMonitor.id three_monitors
    /\ Forall (fun c =>
                 AlertConfig.upper_threshold c = Some 100%float /\
                 AlertConfig.lower_threshold c = None /\
                 AlertConfig.alert_level c =
                   ApiAlertRule.level (sample_rule "value > 100" true))
              for_rule.
Proof.
  apply (getAlertConfigs_global_rule
           (sample_upstream [sample_rule "value > 100" true] three_monitors)
           [] (sample_rule "value > 100" true) [] three_monitors
           (Some 100%float) None).
  - reflexivity.
  - reflexivity.
  - reflexivity.
  - vm_compute. reflexivity.
  - reflexivity.
Defined.

(** C4: a disabled rule leaves the configs as they are, whatever its
    condition: the result is made of the configs of the other rules. *)
Theorem getAlertConfigs_disabled_rule :
  forall up rules1 rule rules2 monitors,
    request_alert_rules up = Ok (rules1 ++ rule :: rules2) ->
    request_monitors up = Ok monitors ->
    ApiAlertRule.enabled rule = false ->
    (forall configs, process_rule monitors configs rule = configs) /\
    getAlertConfigs up = Ok (emitted monitors rules1 ++ emitted monitors rules2).
Proof.
  intros up rules1 rule rules2 monitors Hr Hm He.
  split.
  - intros configs. apply process_rule_disabled. exact He.
  - rewrite (getAlertConfigs_fetched _ _ _ Hr Hm), emitted_split.
    rewrite (process_rule_disabled monitors [] rule He). reflexivity.
Qed.

Lemma getAlertConfigs_disabled_rule_witness :
  (forall configs,
     process_rule three_monitors configs (sample_rule "value > 100" false) = configs) /\
  getAlertConfigs
    (sample_upstream [sample_rule "value > 100" false] three_monitors) =
    Ok (emitted three_monitors [] ++ emitted three_monitors []).
Proof.
  apply (getAlertConfigs_disabled_rule
           (sample_upstream [sample_rule "value > 100" false] three_monitors)
           [] (sample_rule "value > 100" false) [] three_monitors).
  - reflexivity.
  - reflexivity.
  - reflexivity.
Defined.

(** C5: an enabled rule with a threshold and a monitor reference yields
    exactly one config, for the referenced monitor, when the fetched list
    holds a monitor with that id, and none when it does not; in both
    cases the method returns normally. *)
Theorem getAlertConfigs_scoped_rule :
  forall up rules1 rule rules2 monitors upper lower mid,
    request_alert_rules up = Ok (rules1 ++ rule :: rules2) ->
    request_monitors up = Ok monitors ->
    ApiAlertRule.enabled rule = true ->
    parseAlertCondition (ApiAlertRule.condition rule) None =
      {| Parsed.upper_threshold := upper;
         Parsed.lower_threshold := lower;
         Parsed.monitor_id := Some mid |} ->
    is_null upper && is_null lower = false ->
    ((exists m, In m monitors /\ ApiMonitor.id m = mid) ->
     getAlertConfigs up =
       Ok (emitted monitors rules1
           ++ [ {| AlertConfig.monitor_id := mid;
                   AlertConfig.upper_threshold := upper;
                   AlertConfig.lower_threshold := lower;
                   AlertConfig.alert_level := ApiAlertRule.level rule;
                   AlertConfig.created_at := ApiAlertRule.created_at rule;
                   AlertConfig.updated_at := ApiAlertRule.updated_at rule |} ]
           ++ emitted monitors rules2))
    /\
    ((forall m, In m monitors -> ApiMonitor.id m <> mid) ->
     getAlertConfigs up =
       Ok (emitted monitors rules1 ++ emitted monitors rules2)).
Proof.
  intros up rules1 rule rules2 monitors upper lower mid Hr Hm He Hp Ht.
  apply both_null_false in Ht.
  rewrite (getAlertConfigs_fetched _ _ _ Hr Hm), emitted_split.
  rewrite (process_rule_scoped monitors rule upper lower mid He Hp Ht).
  pose proof (find_by_id monitors mid) as Hfind.
  destruct (find _ monitors) as [monitor|].
  - destruct Hfind as [Hin Hid]. split.
    + intros _. unfold config_for. rewrite Hid. reflexivity.
    + intros Hnone. exfalso. exact (Hnone monitor Hin Hid).
  - split.
    + intros (m & Hin & Hid). exfalso. exact (Hfind m Hin Hid).
    + intros _. reflexivity.
Qed.

Lemma getAlertConfigs_scoped_rule_witness :
  getAlertConfigs
    (sample_upstream [sample_rule "${monitor:m1} > 100" true] three_monitors) =
    Ok (emitted three_monitors []
        ++ [ {| AlertConfig.monitor_id := "m1";
                AlertConfig.upper_threshold := Some 100%float;
                AlertConfig.lower_threshold := None;
                AlertConfig.alert_level := "high";
                AlertConfig.created_at := "2024-01-01T00:00:00";
                AlertConfig.updated_at := "2024-01-02T00:00:00" |} ]
        ++ emitted three_monitors [])
  /\
  getAlertConfigs
    (sample_upstream [sample_rule "${monitor:gone} > 100" true] three_monitors) =
    Ok (emitted three_monitors [] ++ emitted three_monitors []).
Proof.
  split.
  - apply (getAlertConfigs_scoped_rule
             (sample_upstream [sample_rule "${monitor:m1} > 100" true] three_monitors)
             [] (sample_rule "${monitor:m1} > 100" true) [] three_monitors
             (Some 100%float) None "m1").
    + reflexivity.
    + reflexivity.
    + reflexivity.
    + vm_compute. reflexivity.
    + reflexivity.
    + exists (sample_monitor "m1" (Some 150%float)). simpl. auto.
  - apply (getAlertConfigs_scoped_rule
             (sample_upstream [sample_rule "${monitor:gone} > 100" true] three_monitors)
             [] (sample_rule "${monitor:gone} > 100" true) [] three_monitors
             (Some 100%float) None "gone").
    + reflexivity.
    + reflexivity.
    + reflexivity.
    + vm_compute. reflexivity.
    + reflexivity.
    + intros m Hin. simpl in Hin.
      destruct Hin as [<-|[<-|[<-|[]]]]; simpl; discriminate.
Defined.

(** C6: [getAlertConfigs] always returns a list, and every config in it
    has an upper or a lower threshold that is not null; a rule whose
    condition yields neither threshold leaves the configs as they are. *)
Theorem getAlertConfigs_thresholds_present :
  (forall up,
     exists configs,
       getAlertConfigs up = Ok configs /\
       Forall (fun c => AlertConfig.upper_threshold c <> None \/
                        AlertConfig.lower_threshold c <> None)
              configs)
  /\
  (forall monitors configs rule,
     Parsed.upper_threshold (parseAlertCondition (ApiAlertRule.condition rule) None)
       = None ->
     Parsed.lower_threshold (parseAlertCondition (ApiAlertRule.condition rule) None)
       = None ->
     process_rule monitors configs rule = configs).
Proof.
  split.
  - intros up. unfold getAlertConfigs.
    destruct (request_alert_rules up) as [alertRules|e1];
      destruct (request_monitors up) as [monitors|e2]; simpl.
    + exists (emitted monitors alertRules). split; [reflexivity|].
      apply emitted_thresholds.
    + exists []. split; [reflexivity | constructor].
    + exists []. split; [reflexivity | constructor].
    + exists []. split; [reflexivity | constructor].
  - intros monitors configs rule Hu Hl. unfold process_rule.
    destruct (negb (ApiAlertRule.enabled rule)); [reflexivity|].
    cbv zeta. rewrite Hu, Hl. reflexivity.
Qed.

Lemma getAlertConfigs_thresholds_present_witness :
  (exists configs,
     getAlertConfigs
       (sample_upstream [sample_rule "foo bar" true; sample_rule "value < 5" true]
          three_monitors) = Ok configs /\
     Forall (fun c => AlertConfig.upper_threshold c <> None \/
                      AlertConfig.lower_threshold c <> None)
            configs)
  /\
  process_rule three_monitors [] (sample_rule "foo bar" true) = [].
Proof.
  split.
  - apply (proj1 getAlertConfigs_thresholds_present).
  - apply (proj2 getAlertConfigs_thresholds_present).
    + vm_compute. reflexivity.
    + vm_compute. reflexivity.
Defined.

(** C7: when the monitor request throws, [getMonitors] returns the empty
    list; when the rule request or the monitor request throws,
    [getAlertConfigs] returns the empty list.  Neither rethrows. *)
Theorem fetch_failure_yields_empty_list :
  forall up,
    ((exists e, request_monitors up = Throw e) -> getMonitors up = Ok [])
    /\
    ((exists e, request_alert_rules up = Throw e) \/
     (exists e, request_monitors up = Throw e) ->
     getAlertConfigs up = Ok []).
Proof.
  intros up. split.
  - intros (e & H). unfold getMonitors. rewrite H. reflexivity.
  - intros [(e & H)|(e & H)]; unfold getAlertConfigs; rewrite H.
    + reflexivity.
    + destruct (request_alert_rules up); reflexivity.
Qed.

Lemma fetch_failure_yields_empty_list_witness :
  getMonitors failing_upstream = Ok [] /\
  getAlertConfigs failing_upstream = Ok [] /\
  getAlertConfigs
    {| request_monitors := Throw "API request failed: 401 Unauthorized";
       request_alert_rules := Ok [sample_rule "value > 100" true];
       request_create_alert_rule := request_create_alert_rule failing_upstream |}
  = Ok [].
Proof.
  split; [|split].
  - apply (proj1 (fetch_failure_yields_empty_list failing_upstream)).
    eexists. reflexivity.
  - apply (proj2 (fetch_failure_yields_empty_list failing_upstream)).
    left. eexists. reflexivity.
  - apply (proj2 (fetch_failure_yields_empty_list _)).
    right. eexists. reflexivity.
Defined.

(** The fetch succeeding, [getMonitors] returns the transformed monitors. *)
Lemma getMonitors_fetched :
  forall up apiMonitors,
    request_monitors up = Ok apiMonitors ->
    getMonitors up = Ok (map transformMonitor apiMonitors).
Proof. intros up apiMonitors H. unfold getMonitors. rewrite H. reflexivity. Qed.

(** ** Saving a threshold *)

Section Includes.

Lemma includes_from_app_r :
  forall needle h1 h2,
    includes_from needle h2 = true -> includes_from needle (h1 ++ h2) = true.
Proof.
  intros needle h1 h2 H. induction h1 as [|c h1 IH]; [exact H|].
  simpl. rewrite IH. apply orb_true_r.
Qed.

Lemma list_ascii_of_string_app :
  forall a b : string,
    list_ascii_of_string (a ++ b) = list_ascii_of_string a ++ list_ascii_of_string b.
Proof.
  induction a as [|c a IH]; intros b; simpl; [reflexivity|].
  rewrite IH. reflexivity.
Qed.

Lemma includes_append_r :
  forall a b needle : string,
    includes b needle = true -> includes (a ++ b) needle = true.
Proof.
  intros a b needle H. unfold includes in *.
  rewrite list_ascii_of_string_app. apply includes_from_app_r. exact H.
Qed.

End Includes.

(** C10: when [updateAlertConfig] is called with an upper (or lower)
    threshold equal to zero, the body it posts has a condition containing
    [value > 0] (or [value < 0]), and the method returns what the upstream
    answer makes of it: the error when the request is rejected, otherwise a
    config whose upper (or lower) threshold is null. *)
Theorem updateAlertConfig_zero_threshold :
  forall NumberToString : number -> string,
    (forall x, PrimFloat.eqb x 0%float = true -> NumberToString x = "0") ->
    forall up monitorId (zero : number) (other : option number)
           (alertLevel : option string),
      PrimFloat.eqb zero 0%float = true ->
      let level := match alertLevel with Some l => l | None => "medium" end in
      (let body := alert_rule_body NumberToString monitorId (Some zero) other level in
       includes (AlertRuleBody.condition body) "value > 0" = true /\
       updateAlertConfig NumberToString up monitorId (Some zero) other alertLevel =
         (rule <- request_create_alert_rule up body ;;
          Ok {| AlertConfig.monitor_id := monitorId;
                AlertConfig.upper_threshold := None;
                AlertConfig.lower_threshold := number_or_null other;
                AlertConfig.alert_level := ApiAlertRule.level rule;
                AlertConfig.created_at := ApiAlertRule.created_at rule;
                AlertConfig.updated_at := ApiAlertRule.updated_at rule |}))
      /\
      (let body := alert_rule_body NumberToString monitorId other (Some zero) level in
       includes (AlertRuleBody.condition body) "value < 0" = true /\
       updateAlertConfig NumberToString up monitorId other (Some zero) alertLevel =
         (rule <- request_create_alert_rule up body ;;
          Ok {| AlertConfig.monitor_id := monitorId;
                AlertConfig.upper_threshold := number_or_null other;
                AlertConfig.lower_threshold := None;
                AlertConfig.alert_level := ApiAlertRule.level rule;
                AlertConfig.created_at := ApiAlertRule.created_at rule;
                AlertConfig.updated_at := ApiAlertRule.updated_at rule |})).
Proof.
  intros NumberToString Hz up monitorId zero other alertLevel Hzero level.
  assert (Hnull : number_or_null (Some zero) = None).
  { simpl. rewrite (number_truthy_zero zero Hzero). reflexivity. }
  split; cbv zeta; (split; [|unfold updateAlertConfig; fold level; rewrite Hnull;
    destruct (request_create_alert_rule up _); reflexivity]).
  - unfold alert_rule_body. cbn [AlertRuleBody.condition app].
    rewrite (Hz zero Hzero).
    destruct other as [l|]; reflexivity.
  - unfold alert_rule_body. cbn [AlertRuleBody.condition app].
    rewrite (Hz zero Hzero).
    destruct other as [u|]; [|reflexivity].
    cbn [app join]. apply includes_append_r. reflexivity.
Qed.

Lemma updateAlertConfig_zero_threshold_witness :
  (includes
     (AlertRuleBody.condition
        (alert_rule_body sample_NumberToString "m1" (Some 0%float) None "medium"))
     "value > 0" = true /\
   updateAlertConfig sample_NumberToString (sample_upstream [] three_monitors)
     "m1" (Some 0%float) None None =
     (rule <- request_create_alert_rule (sample_upstream [] three_monitors)
                (alert_rule_body sample_NumberToString "m1" (Some 0%float) None "medium") ;;
      Ok {| AlertConfig.monitor_id := "m1";
            AlertConfig.upper_threshold := None;
            AlertConfig.lower_threshold := number_or_null None;
            AlertConfig.alert_level := ApiAlertRule.level rule;
            AlertConfig.created_at := ApiAlertRule.created_at rule;
            AlertConfig.updated_at := ApiAlertRule.updated_at rule |}))
  /\
  (includes
     (AlertRuleBody.condition
        (alert_rule_body sample_NumberToString "m1" None (Some 0%float) "medium"))
     "value < 0" = true /\
   updateAlertConfig sample_NumberToString (sample_upstream [] three_monitors)
     "m1" None (Some 0%float) None =
     (rule <- request_create_alert_rule (sample_upstream [] three_monitors)
                (alert_rule_body sample_NumberToString "m1" None (Some 0%float) "medium") ;;
      Ok {| AlertConfig.monitor_id := "m1";
            AlertConfig.upper_threshold := number_or_null None;
            AlertConfig.lower_threshold := None;
            AlertConfig.alert_level := ApiAlertRule.level rule;
            AlertConfig.created_at := ApiAlertRule.created_at rule;
            AlertConfig.updated_at := ApiAlertRule.updated_at rule |})).
Proof.
  apply (updateAlertConfig_zero_threshold sample_NumberToString).
  - intros x Hx. unfold sample_NumberToString. rewrite Hx. reflexivity.
  - reflexivity.
Defined.

(** ** The custom sort *)

Section IndexOf.

Lemma indexOf_from_absent :
  forall l i x, ~ In x l -> indexOf_from i l x = (-1)%Z.
Proof.
  induction l as [|y l IH]; intros i x H; simpl; [reflexivity|].
  destruct (String.eqb y x) eqn:E.
  - apply String.eqb_eq in E. exfalso. apply H. left. exact E.
  - apply IH. intros Hin. apply H. right. exact Hin.
Qed.

Lemma indexOf_from_present :
  forall l i x, In x l -> (i <= indexOf_from i l x)%Z.
Proof.
  induction l as [|y l IH]; intros i x H; simpl; [destruct H|].
  destruct (String.eqb y x) eqn:E; [lia|].
  destruct H as [H|H].
  - apply String.eqb_neq in E. congruence.
  - specialize (IH (i + 1)%Z x H). lia.
Qed.

(** [indexOf] answers -1 exactly for the ids that are not listed. *)
Lemma indexOf_listed :
  forall customOrder id,
    (indexOf customOrder id =? -1)%Z = false <-> listed customOrder id.
Proof.
  intros customOrder id. unfold listed, indexOf. split.
  - intros H. destruct (in_dec string_dec id customOrder) as [Hin|Hout]; [exact Hin|].
    rewrite (indexOf_from_absent _ 0%Z _ Hout) in H. discriminate.
  - intros Hin. apply Z.eqb_neq.
    pose proof (indexOf_from_present _ 0%Z _ Hin). lia.
Qed.

Lemma indexOf_unlisted :
  forall customOrder id,
    (indexOf customOrder id =? -1)%Z = true -> ~ listed customOrder id.
Proof.
  intros customOrder id H Hin. apply indexOf_listed in Hin. congruence.
Qed.

Lemma indexOf_from_first_position :
  forall l i x,
    In x l ->
    exists n, first_position l x n /\ indexOf_from i l x = (i + Z.of_nat n)%Z.
Proof.
  induction l as [|y l IH]; intros i x H; [destruct H|]. simpl.
  destruct (String.eqb y x) eqn:E.
  - apply String.eqb_eq in E. subst y. exists 0. split; [|lia].
    split; [reflexivity | intros m Hm; lia].
  - apply String.eqb_neq in E. destruct H as [H|H]; [congruence|].
    destruct (IH (i + 1)%Z x H) as (n & [Hn Hmin] & Hi).
    exists (S n). split; [|lia]. split; [exact Hn|].
    intros [|m] Hm; simpl; [congruence | apply Hmin; lia].
Qed.

(** [indexOf] answers the first position of a listed id. *)
Lemma indexOf_first_position :
  forall customOrder id,
    listed customOrder id ->
    exists n, first_position customOrder id n /\ indexOf customOrder id = Z.of_nat n.
Proof.
  intros customOrder id H. unfold indexOf.
  destruct (indexOf_from_first_position customOrder 0%Z id H) as (n & Hn & Hi).
  exists n. split; [exact Hn | lia].
Qed.

Lemma first_position_unique :
  forall l id n m, first_position l id n -> first_position l id m -> n = m.
Proof.
  intros l id n m [Hn Hn'] [Hm Hm'].
  destruct (Nat.lt_trichotomy n m) as [Hlt|[Heq|Hgt]]; [|exact Heq|].
  - exfalso. exact (Hm' n Hlt Hn).
  - exfalso. exact (Hn' m Hgt Hm).
Qed.

(** Items in the order of the comparator stand in the order of their
    first positions in the list. *)
Lemma custom_before_positions :
  forall customOrder ka kb,
    custom_before customOrder ka kb ->
    (In kb customOrder -> In ka customOrder) /\
    (In ka customOrder -> In kb customOrder ->
     exists pa pb,
       first_position customOrder ka pa /\
       first_position customOrder kb pb /\
       pa <= pb).
Proof.
  intros customOrder ka kb [H1 H2]. split; [exact H1|].
  intros Ha Hb.
  destruct (indexOf_first_position customOrder ka Ha) as (pa & Hpa & Ea).
  destruct (indexOf_first_position customOrder kb Hb) as (pb & Hpb & Eb).
  exists pa, pb. split; [exact Hpa|]. split; [exact Hpb|].
  specialize (H2 Ha Hb). lia.
Qed.

End IndexOf.

Section SortFacts.

Context {A : Type}.
Variable comparefn : A -> A -> Z.

Lemma sort_insert_perm :
  forall x l, Permutation (x :: l) (sort_insert comparefn x l).
Proof.
  intros x l. induction l as [|y l IH]; simpl; [reflexivity|].
  destruct (0 <? comparefn x y)%Z; [|reflexivity].
  rewrite perm_swap. apply perm_skip. exact IH.
Qed.

(** Sorting rearranges the array and keeps every element. *)
Lemma array_sort_perm :
  forall l, Permutation l (array_sort comparefn l).
Proof.
  induction l as [|x l IH]; simpl; [constructor|].
  rewrite <- sort_insert_perm. apply perm_skip. exact IH.
Qed.

(** An order [before] that the comparator respects: a positive answer
    allows the second argument in front of the first, any other answer
    allows the first in front of the second. *)
Variable before : A -> A -> Prop.
Hypothesis before_trans : forall a b c, before a b -> before b c -> before a c.
Hypothesis positive_sound : forall a b, (0 < comparefn a b)%Z -> before b a.
Hypothesis nonpositive_sound : forall a b, (comparefn a b <= 0)%Z -> before a b.

Lemma sort_insert_sorted :
  forall x l,
    StronglySorted before l -> StronglySorted before (sort_insert comparefn x l).
Proof.
  intros x l Hs. induction Hs as [|y l Hs IH Hy]; simpl.
  - repeat constructor.
  - destruct (0 <? comparefn x y)%Z eqn:E.
    + apply Z.ltb_lt in E. constructor; [exact IH|].
      apply (Permutation_Forall (sort_insert_perm x l)).
      constructor; [apply positive_sound; exact E | exact Hy].
    + apply Z.ltb_ge in E. apply nonpositive_sound in E.
      constructor; [constructor; assumption|].
      constructor; [exact E|].
      eapply Forall_impl; [|exact Hy].
      intros z Hz. eapply before_trans; eauto.
Qed.

Lemma array_sort_sorted :
  forall l, StronglySorted before (array_sort comparefn l).
Proof.
  induction l as [|x l IH]; simpl; [constructor|].
  apply sort_insert_sorted. exact IH.
Qed.

Lemma sorted_pair :
  forall l1 a l2 b l3,
    StronglySorted before (l1 ++ a :: l2 ++ b :: l3) -> before a b.
Proof.
  induction l1 as [|x l1 IH]; intros a l2 b l3 H; simpl in H.
  - apply StronglySorted_inv in H. destruct H as [_ H].
    apply Forall_app in H. destruct H as [_ H].
    apply Forall_inv in H. exact H.
  - apply StronglySorted_inv in H. destruct H as [H _].
    apply IH in H. exact H.
Qed.

End SortFacts.

Section CustomOrder.

Variable customOrder : list string.

Lemma custom_before_trans :
  forall ka kb kc,
    custom_before customOrder ka kb -> custom_before customOrder kb kc ->
    custom_before customOrder ka kc.
Proof.
  unfold custom_before. intros ka kb kc [H1 H2] [H3 H4]. split.
  - auto.
  - intros Ha Hc. specialize (H3 Hc). specialize (H2 Ha H3). specialize (H4 H3 Hc). lia.
Qed.

(** With at least one of two items unlisted, any placement that does
    not put an unlisted item in front of a listed one is in order. *)
Lemma custom_before_unlisted :
  forall ka kb, ~ listed customOrder kb -> custom_before customOrder ka kb.
Proof. unfold custom_before. intros ka kb H. split; intros; tauto. Qed.

Variable toLowerCase : string -> string.
Variable localeCompare : string -> string -> Z.

Lemma compareMonitorsCustom_sound :
  forall a b,
    let ka := MonitorSummary.monitor_id a in
    let kb := MonitorSummary.monitor_id b in
    let c := compareMonitorsCustom toLowerCase localeCompare customOrder a b in
    ((0 < c)%Z -> custom_before customOrder kb ka) /\
    ((c <= 0)%Z -> custom_before customOrder ka kb).
Proof.
  intros a b ka kb c. subst c. unfold compareMonitorsCustom. fold ka kb.
  destruct (indexOf customOrder ka =? -1)%Z eqn:Ea;
    destruct (indexOf customOrder kb =? -1)%Z eqn:Eb; cbn [negb andb].
  - apply indexOf_unlisted in Ea, Eb.
    split; intros _; apply custom_before_unlisted; assumption.
  - apply indexOf_unlisted in Ea. apply indexOf_listed in Eb.
    split; [intros _; apply custom_before_unlisted; assumption | lia].
  - apply indexOf_listed in Ea. apply indexOf_unlisted in Eb.
    split; [lia | intros _; apply custom_before_unlisted; assumption].
  - apply indexOf_listed in Ea, Eb.
    split; intros H; (split; [auto | intros _ _; lia]).
Qed.

Lemma compareAlertItemsCustom_sound :
  forall a b,
    let ka := MonitorSummary.monitor_id (AlertItem.monitor a) in
    let kb := MonitorSummary.monitor_id (AlertItem.monitor b) in
    let c := compareAlertItemsCustom toLowerCase localeCompare customOrder a b in
    ((0 < c)%Z -> custom_before customOrder kb ka) /\
    ((c <= 0)%Z -> custom_before customOrder ka kb).
Proof.
  intros a b ka kb c. subst c. unfold compareAlertItemsCustom. fold ka kb.
  destruct (indexOf customOrder ka =? -1)%Z eqn:Ea;
    destruct (indexOf customOrder kb =? -1)%Z eqn:Eb; cbn [negb andb].
  - apply indexOf_unlisted in Ea, Eb.
    split; intros _; apply custom_before_unlisted; assumption.
  - apply indexOf_unlisted in Ea. apply indexOf_listed in Eb.
    split; [intros _; apply custom_before_unlisted; assumption | lia].
  - apply indexOf_listed in Ea. apply indexOf_unlisted in Eb.
    split; [lia | intros _; apply custom_before_unlisted; assumption].
  - apply indexOf_listed in Ea, Eb.
    split; intros H; (split; [auto | intros _ _; lia]).
Qed.

Lemma sortedMonitors_sorted :
  forall monitors,
    StronglySorted
      (fun a b => custom_before customOrder
                    (MonitorSummary.monitor_id a) (MonitorSummary.monitor_id b))
      (sortedMonitors toLowerCase localeCompare customOrder monitors).
Proof.
  intros [monitors|]; simpl; [|constructor].
  apply array_sort_sorted.
  - intros a b c. apply custom_before_trans.
  - intros a b. apply (proj1 (compareMonitorsCustom_sound a b)).
  - intros a b. apply (proj2 (compareMonitorsCustom_sound a b)).
Qed.

Lemma sortedAlertItems_sorted :
  forall alertItems,
    StronglySorted
      (fun a b => custom_before customOrder
                    (MonitorSummary.monitor_id (AlertItem.monitor a))
                    (MonitorSummary.monitor_id (AlertItem.monitor b)))
      (sortedAlertItems toLowerCase localeCompare customOrder alertItems).
Proof.
  intros alertItems. unfold sortedAlertItems.
  apply array_sort_sorted.
  - intros a b c. apply custom_before_trans.
  - intros a b. apply (proj1 (compareAlertItemsCustom_sound a b)).
  - intros a b. apply (proj2 (compareAlertItemsCustom_sound a b)).
Qed.

End CustomOrder.

(** The same holds of any array in which no two items stand against the
    comparator (a positive answer for an item and a later one), whatever
    the sorting procedure that produced it. *)
Lemma compareMonitorsCustom_ordered_array :
  forall toLowerCase localeCompare customOrder (sorted : list MonitorSummary.t),
    (forall l1 a l2 b l3,
       sorted = l1 ++ a :: l2 ++ b :: l3 ->
       (compareMonitorsCustom toLowerCase localeCompare customOrder a b <= 0)%Z) ->
    forall l1 a l2 b l3,
      sorted = l1 ++ a :: l2 ++ b :: l3 ->
      custom_before customOrder
        (MonitorSummary.monitor_id a) (MonitorSummary.monitor_id b).
Proof.
  intros toLowerCase localeCompare customOrder sorted Hs l1 a l2 b l3 H.
  apply (proj2 (compareMonitorsCustom_sound customOrder toLowerCase localeCompare a b)).
  eapply Hs. exact H.
Qed.

Lemma compareAlertItemsCustom_ordered_array :
  forall toLowerCase localeCompare customOrder (sorted : list AlertItem.t),
    (forall l1 a l2 b l3,
       sorted = l1 ++ a :: l2 ++ b :: l3 ->
       (compareAlertItemsCustom toLowerCase localeCompare customOrder a b <= 0)%Z) ->
    forall l1 a l2 b l3,
      sorted = l1 ++ a :: l2 ++ b :: l3 ->
      custom_before customOrder
        (MonitorSummary.monitor_id (AlertItem.monitor a))
        (MonitorSummary.monitor_id (AlertItem.monitor b)).
Proof.
  intros toLowerCase localeCompare customOrder sorted Hs l1 a l2 b l3 H.
  apply (proj2 (compareAlertItemsCustom_sound customOrder toLowerCase localeCompare a b)).
  eapply Hs. exact H.
Qed.

(** C8: under the custom strategy both views return a rearrangement of
    their input in which, for any two positions, the item at the earlier
    one is listed whenever the item at the later one is (so no unlisted
    item comes in front of a listed one), and two listed items stand in
    the order of their first positions in the custom-order list: the
    position of the earlier item's id is at most that of the later
    item's. *)
Theorem custom_sort_listed_first :
  forall (toLowerCase : string -> string) (localeCompare : string -> string -> Z)
         (customOrder : list string),
    (forall monitors : list MonitorSummary.t,
       let sorted := sortedMonitors toLowerCase localeCompare customOrder (Some monitors) in
       Permutation monitors sorted /\
       forall l1 a l2 b l3,
         sorted = l1 ++ a :: l2 ++ b :: l3 ->
         let ida := MonitorSummary.monitor_id a in
         let idb := MonitorSummary.monitor_id b in
         (In idb customOrder -> In ida customOrder) /\
         (In ida customOrder -> In idb customOrder ->
          exists pa pb,
            first_position customOrder ida pa /\
            first_position customOrder idb pb /\
            pa <= pb))
    /\
    (forall alertItems : list AlertItem.t,
       let sorted := sortedAlertItems toLowerCase localeCompare customOrder alertItems in
       Permutation alertItems sorted /\
       forall l1 a l2 b l3,
         sorted = l1 ++ a :: l2 ++ b :: l3 ->
         let ida := MonitorSummary.monitor_id (AlertItem.monitor a) in
         let idb := MonitorSummary.monitor_id (AlertItem.monitor b) in
         (In idb customOrder -> In ida customOrder) /\
         (In ida customOrder -> In idb customOrder ->
          exists pa pb,
            first_position customOrder ida pa /\
            first_position customOrder idb pb /\
            pa <= pb)).
Proof.
  intros toLowerCase localeCompare customOrder. split.
  - intros monitors sorted. split; [apply array_sort_perm|].
    intros l1 a l2 b l3 H.
    pose proof (sortedMonitors_sorted customOrder toLowerCase localeCompare
                  (Some monitors)) as Hs.
    fold sorted in Hs. rewrite H in Hs.
    apply sorted_pair in Hs. apply custom_before_positions. exact Hs.
  - intros alertItems sorted. split; [apply array_sort_perm|].
    intros l1 a l2 b l3 H.
    pose proof (sortedAlertItems_sorted customOrder toLowerCase localeCompare
                  alertItems) as Hs.
    fold sorted in Hs. rewrite H in Hs.
    apply sorted_pair in Hs. apply custom_before_positions. exact Hs.
Qed.

Lemma custom_sort_listed_first_witness :
  ((In "m1" ["m3"; "m1"] -> In "m3" ["m3"; "m1"]) /\
   (In "m3" ["m3"; "m1"] -> In "m1" ["m3"; "m1"] ->
    exists pa pb,
      first_position ["m3"; "m1"] "m3" pa /\
      first_position ["m3"; "m1"] "m1" pb /\
      pa <= pb))
  /\
  ((In "m2" ["m3"; "m1"] -> In "m1" ["m3"; "m1"]) /\
   (In "m1" ["m3"; "m1"] -> In "m2" ["m3"; "m1"] ->
    exists pa pb,
      first_position ["m3"; "m1"] "m1" pa /\
      first_position ["m3"; "m1"] "m2" pb /\
      pa <= pb)).
Proof.
  split.
  - apply (proj2 (proj1 (custom_sort_listed_first
                           sample_toLowerCase sample_localeCompare ["m3"; "m1"])
                        [sample_summary "m1"; sample_summary "m2"; sample_summary "m3"])
             [] (sample_summary "m3") [] (sample_summary "m1") [sample_summary "m2"]).
    vm_compute. reflexivity.
  - apply (proj2 (proj2 (custom_sort_listed_first
                           sample_toLowerCase sample_localeCompare ["m3"; "m1"])
                        [sample_item "m2" true; sample_item "m1" false;
                         sample_item "m3" false])
             [sample_item "m3" false] (sample_item "m1" false) []
             (sample_item "m2" true) []).
    vm_compute. reflexivity.
Defined.

(** The two sample arrays, sorted. *)
Example sortedMonitors_sample :
  map MonitorSummary.monitor_id
    (sortedMonitors sample_toLowerCase sample_localeCompare ["m3"; "m1"]
       (Some (map sample_summary ["m1"; "zz"; "m2"; "m3"; "aa"])))
  = ["m3"; "m1"; "aa"; "m2"; "zz"].
Proof. vm_compute. reflexivity. Qed.

(** The reference parse run through [getAlertConfigs]: the spec's global
    rule with three monitors. *)
Example getAlertConfigs_sample :
  option_map (map (fun c => (AlertConfig.monitor_id c, AlertConfig.upper_threshold c,
                             AlertConfig.lower_threshold c)))
    (match getAlertConfigs
             (sample_upstream [sample_rule "value > 100" true;
                               sample_rule "${monitor:m3} < 5" true;
                               sample_rule "${monitor:m9} < 5" true;
                               sample_rule "value < 0" false;
                               sample_rule "foo bar" true] three_monitors) with
     | Ok configs => Some configs
     | Throw _ => None
     end)
  = Some [("m1", Some 100%float, None); ("m2", Some 100%float, None);
          ("m3", Some 100%float, None); ("m3", None, Some 5%float)].
Proof. vm_compute. reflexivity. Qed.

(** Saving a zero threshold on the sample upstream: the rule goes out with
    [value > 0], the config comes back without the threshold. *)
Example updateAlertConfig_sample :
  AlertRuleBody.condition
    (alert_rule_body sample_NumberToString "m1" (Some 0%float) None "medium")
  = "value > 0"
  /\
  option_map AlertConfig.upper_threshold
    (match updateAlertConfig sample_NumberToString (sample_upstream [] three_monitors)
             "m1" (Some 0%float) None None with
     | Ok c => Some c
     | Throw _ => None
     end)
  = Some None.
Proof. split; vm_compute; reflexivity. Qed.

(* ================================================================== *)
(** * Further properties *)

(** ** Comparisons of binary64 numbers *)

Section FloatOrder.

Lemma SFcompare_refl_not_lt : forall s, SFcompare s s <> Some Lt.
Proof.
  intros [sg|sg| |sg m e]; simpl; try discriminate.
  - destruct sg; discriminate.
  - change (PosDef.Pos.compare_cont Eq m m) with (Pos.compare m m).
    destruct sg; rewrite Z.compare_refl, Pos.compare_refl; discriminate.
Qed.

Lemma SFcompare_antisym :
  forall x y, SFcompare x y = Some Lt -> SFcompare y x = Some Gt.
Proof.
  intros [sx|sx| |sx mx ex] [sy|sy| |sy my ey]; simpl; try discriminate;
    try (destruct sx; discriminate || reflexivity);
    try (destruct sy; discriminate || reflexivity);
    try (destruct sx, sy; discriminate || reflexivity).
  rewrite (Z.compare_antisym ex ey).
  change (PosDef.Pos.compare_cont Eq my mx) with (Pos.compare my mx).
  change (PosDef.Pos.compare_cont Eq mx my) with (Pos.compare mx my).
  rewrite (Pos.compare_antisym mx my).
  destruct sx, sy; try discriminate; try reflexivity;
    destruct (ex ?= ey)%Z; simpl; try discriminate; try reflexivity;
    destruct (Pos.compare mx my); simpl; discriminate || reflexivity.
Qed.

(** [x < x] is false, also for NaN. *)
Lemma ltb_irrefl : forall x : number, PrimFloat.ltb x x = false.
Proof.
  intros x. rewrite ltb_spec. unfold SFltb.
  pose proof (SFcompare_refl_not_lt (Prim2SF x)).
  destruct (SFcompare (Prim2SF x) (Prim2SF x)) as [[]|]; congruence.
Qed.

(** [x <= y] excludes [y < x]. *)
Lemma leb_not_ltb :
  forall x y : number, PrimFloat.leb x y = true -> PrimFloat.ltb y x = false.
Proof.
  intros x y. rewrite leb_spec, ltb_spec. unfold SFleb, SFltb.
  destruct (SFcompare (Prim2SF y) (Prim2SF x)) as [[]|] eqn:E; try reflexivity.
  apply SFcompare_antisym in E. rewrite E. discriminate.
Qed.

End FloatOrder.

(** X1: a value that lies between the two thresholds, bounds included,
    is never out of range, whichever of the thresholds are set; in
    particular a value equal to a threshold does not breach it. *)
Theorem isValueOutOfRange_within_bounds :
  (forall t : number,
     isValueOutOfRange (Some t) (Some t) None = false /\
     isValueOutOfRange (Some t) None (Some t) = false /\
     isValueOutOfRange (Some t) (Some t) (Some t) = false)
  /\
  (forall v upper lower : number,
     PrimFloat.leb lower v = true ->
     PrimFloat.leb v upper = true ->
     isValueOutOfRange (Some v) (Some upper) (Some lower) = false /\
     isValueOutOfRange (Some v) (Some upper) None = false /\
     isValueOutOfRange (Some v) None (Some lower) = false).
Proof.
  split.
  - intros t. unfold isValueOutOfRange. rewrite ltb_irrefl, !andb_false_r. auto.
  - intros v upper lower Hl Hu. apply leb_not_ltb in Hl, Hu.
    unfold isValueOutOfRange. rewrite Hl, Hu, !andb_false_r. auto.
Qed.

Lemma isValueOutOfRange_within_bounds_witness :
  isValueOutOfRange (Some 50%float) (Some 100%float) (Some 5%float) = false /\
  isValueOutOfRange (Some 50%float) (Some 100%float) None = false /\
  isValueOutOfRange (Some 50%float) None (Some 5%float) = false.
Proof.
  apply (proj2 isValueOutOfRange_within_bounds 50%float 100%float 5%float).
  - reflexivity.
  - reflexivity.
Defined.

Lemma process_rule_targets :
  forall monitors rule,
    Forall (fun c => In (AlertConfig.monitor_id c) (map ApiMonitor.id monitors))
           (process_rule monitors [] rule).
Proof.
  intros monitors rule. unfold process_rule.
  destruct (negb (ApiAlertRule.enabled rule)); [constructor|].
  cbv zeta. destruct (is_null _ && is_null _); [constructor|].
  destruct (string_truthy _).
  - destruct (find _ monitors) as [monitor|] eqn:E; [|constructor].
    apply find_some in E. destruct E as [Hin _].
    constructor; [|constructor]. simpl. apply in_map. exact Hin.
  - rewrite push_each. simpl. apply Forall_map, Forall_forall.
    intros m Hin. simpl. apply in_map. exact Hin.
Qed.

Lemma emitted_targets :
  forall monitors alertRules,
    Forall (fun c => In (AlertConfig.monitor_id c) (map ApiMonitor.id monitors))
           (emitted monitors alertRules).
Proof.
  intros monitors alertRules.
  induction alertRules as [|rule rules IH] using rev_ind; [constructor|].
  rewrite emitted_split, !Forall_app.
  split; [apply IH|]. split; [apply process_rule_targets | constructor].
Qed.

(** X2: every config [getAlertConfigs] returns names a monitor of the
    fetched monitor list; with no monitor fetched it returns no config,
    whatever the rules. *)
Theorem getAlertConfigs_targets_fetched_monitors :
  forall up alertRules monitors,
    request_alert_rules up = Ok alertRules ->
    request_monitors up = Ok monitors ->
    exists configs,
      getAlertConfigs up = Ok configs /\
      Forall (fun c => In (AlertConfig.monitor_id c) (map ApiMonitor.id monitors))
             configs /\
      (monitors = [] -> configs = []).
Proof.
  intros up alertRules monitors Hr Hm.
  exists (emitted monitors alertRules).
  split; [apply getAlertConfigs_fetched; assumption|].
  pose proof (emitted_targets monitors alertRules) as Hall.
  split; [exact Hall|].
  intros ->. destruct (emitted [] alertRules) as [|c cs]; [reflexivity|].
  apply Forall_inv in Hall. destruct Hall.
Qed.

Lemma getAlertConfigs_targets_fetched_monitors_witness :
  exists configs,
    getAlertConfigs
      (sample_upstream [sample_rule "value > 100" true;
                        sample_rule "${monitor:gone} < 5" true] three_monitors)
    = Ok configs /\
    Forall (fun c => In (AlertConfig.monitor_id c) (map ApiMonitor.id three_monitors))
           configs /\
    (three_monitors = [] -> configs = []).
Proof.
  apply (getAlertConfigs_targets_fetched_monitors
           (sample_upstream [sample_rule "value > 100" true;
                             sample_rule "${monitor:gone} < 5" true] three_monitors)
           [sample_rule "value > 100" true; sample_rule "${monitor:gone} < 5" true]
           three_monitors).
  - reflexivity.
  - reflexivity.
Defined.

(** ** Comma-separated preferences and tag input *)

Section SplitTrim.

Lemma split_chars_nonempty : forall sep s, split_chars sep s <> [].
Proof.
  intros sep s. induction s as [|c s IH]; simpl; [discriminate|].
  destruct (Ascii.eqb c sep); [discriminate|].
  destruct (split_chars sep s); discriminate.
Qed.

Lemma split_chars_no_sep :
  forall sep s, Forall (fun part => ~ In sep part) (split_chars sep s).
Proof.
  intros sep s. induction s as [|c s IH]; simpl.
  - constructor; [intros []|constructor].
  - destruct (Ascii.eqb c sep) eqn:E.
    + constructor; [intros []|exact IH].
    + apply Ascii.eqb_neq in E.
      destruct (split_chars sep s) as [|part parts].
      * constructor; [|constructor]. intros [H|[]]. congruence.
      * inversion IH as [|? ? Hp Hps]; subst.
        constructor; [|exact Hps]. intros [H|H]; [congruence | exact (Hp H)].
Qed.

(** A part without separator in front of a separator is split off. *)
Lemma split_chars_app :
  forall sep part s,
    ~ In sep part ->
    split_chars sep (part ++ sep :: s) = part :: split_chars sep s.
Proof.
  intros sep part s. induction part as [|c part IH]; intros H; simpl.
  - rewrite Ascii.eqb_refl. reflexivity.
  - destruct (Ascii.eqb c sep) eqn:E.
    + apply Ascii.eqb_eq in E. exfalso. apply H. left. exact E.
    + rewrite IH; [reflexivity|]. intros Hin. apply H. right. exact Hin.
Qed.

Lemma split_chars_single :
  forall sep part, ~ In sep part -> split_chars sep part = [part].
Proof.
  intros sep part. induction part as [|c part IH]; intros H; simpl; [reflexivity|].
  destruct (Ascii.eqb c sep) eqn:E.
  - apply Ascii.eqb_eq in E. exfalso. apply H. left. exact E.
  - rewrite IH; [reflexivity|]. intros Hin. apply H. right. exact Hin.
Qed.

(** What [skip_white_space] removes is white space, and what it leaves
    does not start with white space. *)
Lemma skip_white_space_spec :
  forall s,
    exists skipped,
      s = skipped ++ skip_white_space s /\
      Forall (fun c => white_space c = true) skipped /\
      (forall c rest, skip_white_space s = c :: rest -> white_space c = false).
Proof.
  induction s as [|c s (skipped & Heq & Hws & Hhead)]; simpl.
  - exists []. repeat split; [constructor | discriminate].
  - destruct (white_space c) eqn:E.
    + exists (c :: skipped). simpl. rewrite <- Heq.
      repeat split; [constructor; assumption | exact Hhead].
    + exists []. repeat split; [constructor|].
      intros c' rest H. injection H as <- _. exact E.
Qed.

Lemma skip_white_space_id :
  forall s,
    (forall c rest, s = c :: rest -> white_space c = false) ->
    skip_white_space s = s.
Proof.
  intros [|c s] H; simpl; [reflexivity|].
  rewrite (H c s eq_refl). reflexivity.
Qed.

(** The trimmed text: a piece of the input between white space, with no
    white space at its ends. *)
Lemma trim_chars_spec :
  forall s,
    (exists front back, s = front ++ trim_chars s ++ back) /\
    (forall c rest, trim_chars s = c :: rest -> white_space c = false) /\
    (forall front c, trim_chars s = front ++ [c] -> white_space c = false).
Proof.
  intros s. unfold trim_chars.
  destruct (skip_white_space_spec s) as (front & Hs & _ & Hhead).
  set (s1 := skip_white_space s) in *.
  destruct (skip_white_space_spec (rev s1)) as (back & Hr & _ & Hlast).
  set (s2 := skip_white_space (rev s1)) in *.
  assert (Hs1 : s1 = rev s2 ++ rev back).
  { rewrite <- rev_app_distr, <- Hr, rev_involutive. reflexivity. }
  split; [|split].
  - exists front, (rev back). rewrite <- Hs1. exact Hs.
  - intros c rest H. rewrite H in Hs1. simpl in Hs1.
    apply (Hhead c _ Hs1).
  - intros f c H. apply (f_equal (@rev ascii)) in H.
    rewrite rev_involutive, rev_app_distr in H. simpl in H.
    apply (Hlast c _ H).
Qed.

Lemma trim_chars_clean :
  forall s,
    (forall c rest, s = c :: rest -> white_space c = false) ->
    (forall front c, s = front ++ [c] -> white_space c = false) ->
    trim_chars s = s.
Proof.
  intros s Hhead Hlast. unfold trim_chars.
  rewrite (skip_white_space_id s Hhead).
  rewrite skip_white_space_id; [apply rev_involutive|].
  intros c rest H. apply (Hlast (rev rest) c).
  rewrite <- (rev_involutive s), H. reflexivity.
Qed.

Lemma trim_chars_leading_space :
  forall s, trim_chars (" "%char :: s) = trim_chars s.
Proof. intros s. reflexivity. Qed.

Lemma string_length_chars :
  forall s, String.length s = List.length (list_ascii_of_string s).
Proof. induction s as [|c s IH]; simpl; congruence. Qed.

Lemma clean_entry_of_chars :
  forall cs,
    cs <> [] ->
    ~ In ","%char cs ->
    (forall c rest, cs = c :: rest -> white_space c = false) ->
    (forall front c, cs = front ++ [c] -> white_space c = false) ->
    clean_entry (string_of_list_ascii cs).
Proof.
  intros cs H1 H2 H3 H4. unfold clean_entry.
  rewrite list_ascii_of_string_of_list_ascii. auto.
Qed.

End SplitTrim.

(** X3: every entry the expression produces is non-empty, holds no comma
    and has no white space at either end; this holds of the custom order,
    of the pinned ids and of the stored tags.  A missing preference gives
    the empty list. *)
Theorem split_trim_filter_entries_clean :
  (forall s, Forall clean_entry (split_trim_filter s)) /\
  (forall monitorOrder, Forall clean_entry (customOrder_of monitorOrder)) /\
  (forall tagsInput, Forall clean_entry (tags_of_input tagsInput)) /\
  customOrder_of None = [].
Proof.
  assert (H : forall s, Forall clean_entry (split_trim_filter s)).
  { intros s. unfold split_trim_filter, split.
    apply Forall_forall. intros id Hin.
    apply filter_In in Hin. destruct Hin as [Hin Hlen].
    apply in_map_iff in Hin. destruct Hin as (part & <- & Hin).
    apply in_map_iff in Hin. destruct Hin as (cs & <- & Hin).
    pose proof (split_chars_no_sep ","%char (list_ascii_of_string s)) as Hsep.
    rewrite Forall_forall in Hsep. specialize (Hsep cs Hin).
    unfold trim in *. rewrite list_ascii_of_string_of_list_ascii in *.
    destruct (trim_chars_spec cs) as ((front & back & Hcs) & Hhead & Hlast).
    apply clean_entry_of_chars.
    - intros E. rewrite E in Hlen. discriminate.
    - intros Hc. apply Hsep. rewrite Hcs.
      apply in_or_app. right. apply in_or_app. left. exact Hc.
    - exact Hhead.
    - exact Hlast. }
  split; [exact H|]. split; [|split; [exact H | reflexivity]].
  intros [s|]; [apply H | constructor].
Qed.

Section TagRoundTrip.

Lemma joined_chars :
  forall t ts,
    list_ascii_of_string (join ", " (t :: ts)) =
    list_ascii_of_string t ++
    match ts with
    | [] => []
    | _ :: _ => ","%char :: " "%char :: list_ascii_of_string (join ", " ts)
    end.
Proof.
  intros t [|t' ts]; simpl join.
  - rewrite app_nil_r. reflexivity.
  - rewrite !list_ascii_of_string_app. reflexivity.
Qed.

Lemma split_joined :
  forall t ts,
    Forall clean_entry (t :: ts) ->
    split_chars "," (list_ascii_of_string (join ", " (t :: ts))) =
    list_ascii_of_string t ::
    map (fun x => " "%char :: list_ascii_of_string x) ts.
Proof.
  intros t ts. revert t. induction ts as [|t' ts IH]; intros t H.
  - rewrite joined_chars, app_nil_r.
    apply split_chars_single. inversion H as [|? ? (_ & Hc & _) _]. exact Hc.
  - rewrite joined_chars.
    inversion H as [|? ? (_ & Hc & _) Hrest]; subst.
    rewrite split_chars_app by exact Hc.
    f_equal.
    change (split_chars "," (" "%char :: ?l))
      with (match split_chars "," l with
            | part :: parts => (" "%char :: part) :: parts
            | [] => [[" "%char]]
            end).
    rewrite (IH t' Hrest). reflexivity.
Qed.

End TagRoundTrip.

(** X4: the tag form gives back the tags it was opened with: the text
    field filled with [currentTags.join(", ")], submitted unchanged, is
    read as [currentTags], provided the stored tags are clean (as every
    list written by the form is). *)
Theorem tags_input_round_trip :
  forall currentTags,
    Forall clean_entry currentTags ->
    tags_of_input (tagsInput_initial currentTags) = currentTags.
Proof.
  intros tags H. unfold tags_of_input, tagsInput_initial, split_trim_filter, split.
  destruct tags as [|t ts]; [reflexivity|].
  rewrite (split_joined t ts H), !map_cons, !map_map.
  assert (Hkeep : forall x, clean_entry x ->
            trim (string_of_list_ascii (list_ascii_of_string x)) = x /\
            trim (string_of_list_ascii (" "%char :: list_ascii_of_string x)) = x /\
            Nat.ltb 0 (String.length x) = true).
  { intros x (Hne & _ & Hhead & Hlast). unfold trim.
    rewrite !list_ascii_of_string_of_list_ascii, trim_chars_leading_space.
    rewrite (trim_chars_clean _ Hhead Hlast), string_of_list_ascii_of_string.
    repeat split. rewrite string_length_chars.
    destruct (list_ascii_of_string x); [congruence | reflexivity]. }
  inversion H as [|? ? Ht Hts]; subst.
  destruct (Hkeep t Ht) as (E1 & _ & E3).
  rewrite E1. cbn [filter]. rewrite E3. f_equal.
  induction Hts as [|x xs Hx Hxs IH]; [reflexivity|].
  destruct (Hkeep x Hx) as (_ & E2 & E4).
  cbn [map filter]. rewrite E2, E4. f_equal. apply IH.
  constructor; [exact Ht|exact Hxs].
Qed.

Lemma clean_entryb_sound :
  forall id, clean_entryb id = true -> clean_entry id.
Proof.
  intros id H. unfold clean_entryb in H. unfold clean_entry. cbv zeta.
  destruct (list_ascii_of_string id) as [|c rest]; [discriminate|].
  apply andb_prop in H. destruct H as [H Hlast].
  apply andb_prop in H. destruct H as [Hcomma Hhead].
  apply negb_true_iff in Hcomma, Hhead, Hlast.
  split; [discriminate|]. split; [|split].
  - intros Hin.
    assert (E : existsb (Ascii.eqb ",") (c :: rest) = true).
    { apply existsb_exists. exists ","%char. split; [exact Hin | apply Ascii.eqb_refl]. }
    congruence.
  - intros c' rest' E. injection E as <- _. exact Hhead.
  - intros front c' E. rewrite E, last_last in Hlast. exact Hlast.
Qed.

Lemma tags_input_round_trip_witness :
  tags_of_input (tagsInput_initial ["prod"; "eu west"; "db"]) = ["prod"; "eu west"; "db"].
Proof.
  apply (tags_input_round_trip ["prod"; "eu west"; "db"]).
  repeat constructor; apply clean_entryb_sound; reflexivity.
Defined.

(** ** Sorting with a comparator that is sound on the items at hand *)

Section SortOn.

Context {A : Type}.
Variable comparefn : A -> A -> Z.
Variable P : A -> Prop.
Variable before : A -> A -> Prop.
Hypothesis before_trans :
  forall a b c, P a -> P b -> P c -> before a b -> before b c -> before a c.
Hypothesis positive_sound :
  forall a b, P a -> P b -> (0 < comparefn a b)%Z -> before b a.
Hypothesis nonpositive_sound :
  forall a b, P a -> P b -> (comparefn a b <= 0)%Z -> before a b.

Lemma sort_insert_sorted_on :
  forall x l,
    P x -> Forall P l ->
    StronglySorted before l -> StronglySorted before (sort_insert comparefn x l).
Proof.
  intros x l Px Pl Hs. induction Hs as [|y l Hs IH Hy]; simpl.
  - repeat constructor.
  - inversion Pl as [|? ? Py Pl']; subst.
    destruct (0 <? comparefn x y)%Z eqn:E.
    + apply Z.ltb_lt in E. constructor; [exact (IH Pl')|].
      apply (Permutation_Forall (sort_insert_perm comparefn x l)).
      constructor; [apply positive_sound; assumption | exact Hy].
    + apply Z.ltb_ge in E. apply nonpositive_sound in E; [|assumption..].
      constructor; [constructor; assumption|].
      constructor; [exact E|].
      rewrite Forall_forall in Hy, Pl'. apply Forall_forall. intros z Hz.
      apply (before_trans x y z); auto.
Qed.

Lemma array_sort_sorted_on :
  forall l, Forall P l -> StronglySorted before (array_sort comparefn l).
Proof.
  induction l as [|x l IH]; intros Pl; simpl; [constructor|].
  inversion Pl as [|? ? Px Pl']; subst.
  apply sort_insert_sorted_on; [exact Px | | exact (IH Pl')].
  apply (Permutation_Forall (array_sort_perm comparefn l)). exact Pl'.
Qed.

End SortOn.

Section SortAgain.

Context {A : Type}.
Variable comparefn : A -> A -> Z.

(** An array that is already in order is left as it is. *)
Lemma array_sort_ordered :
  forall l,
    StronglySorted (fun a b => (comparefn a b <= 0)%Z) l ->
    array_sort comparefn l = l.
Proof.
  intros l Hs. induction Hs as [|x l Hs IH Hx]; simpl; [reflexivity|].
  rewrite IH. destruct l as [|y l]; [reflexivity|]. simpl.
  apply Forall_inv in Hx. apply Z.ltb_ge in Hx. rewrite Hx. reflexivity.
Qed.

Hypothesis le_trans :
  forall a b c, (comparefn a b <= 0)%Z -> (comparefn b c <= 0)%Z ->
                (comparefn a c <= 0)%Z.
Hypothesis gt_flip : forall a b, (0 < comparefn a b)%Z -> (comparefn b a <= 0)%Z.

Lemma array_sort_in_order :
  forall l, StronglySorted (fun a b => (comparefn a b <= 0)%Z) (array_sort comparefn l).
Proof.
  intros l.
  apply (array_sort_sorted comparefn (fun a b => (comparefn a b <= 0)%Z)); auto.
Qed.

Lemma array_sort_idempotent :
  forall l, array_sort comparefn (array_sort comparefn l) = array_sort comparefn l.
Proof. intros l. apply array_sort_ordered, array_sort_in_order. Qed.

End SortAgain.

Lemma filter_none :
  forall {A : Type} (f : A -> bool) (l : list A),
    Forall (fun y => f y = false) l -> filter f l = [].
Proof.
  intros A f l H. induction H as [|y l Hy _ IH]; simpl; [reflexivity|].
  rewrite Hy. exact IH.
Qed.

(** A list in which no item failing [f] stands in front of one passing
    it is its passing items followed by its failing items. *)
Lemma filter_split_sorted :
  forall {A : Type} (f : A -> bool) (l : list A),
    StronglySorted (fun a b => f b = true -> f a = true) l ->
    l = filter f l ++ filter (fun x => negb (f x)) l.
Proof.
  intros A f l Hs. induction Hs as [|x l Hs IH Hx]; simpl; [reflexivity|].
  destruct (f x) eqn:E; simpl.
  - f_equal. exact IH.
  - assert (Hnone : filter f l = []).
    { apply filter_none. apply Forall_forall; intros y Hy.
      rewrite Forall_forall in Hx. specialize (Hx y Hy).
      destruct (f y); [|reflexivity]. specialize (Hx eq_refl). congruence. }
    rewrite Hnone in *. simpl in *. f_equal. exact IH.
Qed.

(** ** Sorting by name *)

Section ByName.

Variable toLowerCase : string -> string.
Variable localeCompare : string -> string -> Z.
Hypothesis localeCompare_consistent : consistent localeCompare.

Lemma by_name_sorted :
  forall {A : Type} (name : A -> string) (l : list A),
    let cmp := fun a b => localeCompare (name a) (name b) in
    StronglySorted (fun a b => (cmp a b <= 0)%Z) (array_sort cmp l) /\
    array_sort cmp (array_sort cmp l) = array_sort cmp l.
Proof.
  intros A name l cmp. destruct localeCompare_consistent as [Ht Hf].
  split.
  - apply array_sort_in_order; unfold cmp; eauto.
  - apply array_sort_idempotent; unfold cmp; eauto.
Qed.

End ByName.

(** X5: with a consistent [localeCompare], sorting by name in either
    view rearranges the items so that each one compares at most equal to
    every later one by lower-cased display name, and sorting the result
    again leaves it unchanged. *)
Theorem sort_by_name_ordered_and_idempotent :
  forall (toLowerCase : string -> string) (localeCompare : string -> string -> Z),
    consistent localeCompare ->
    (forall monitors : list MonitorSummary.t,
       let sorted := sortedMonitorsByName toLowerCase localeCompare (Some monitors) in
       Permutation monitors sorted /\
       (forall l1 a l2 b l3,
          sorted = l1 ++ a :: l2 ++ b :: l3 ->
          (localeCompare (lower_name toLowerCase a) (lower_name toLowerCase b) <= 0)%Z) /\
       sortedMonitorsByName toLowerCase localeCompare (Some sorted) = sorted)
    /\
    (forall items : list AlertItem.t,
       let sorted := sortedAlertItemsByName toLowerCase localeCompare items in
       Permutation items sorted /\
       (forall l1 a l2 b l3,
          sorted = l1 ++ a :: l2 ++ b :: l3 ->
          (localeCompare (lower_name toLowerCase (AlertItem.monitor a))
                         (lower_name toLowerCase (AlertItem.monitor b)) <= 0)%Z) /\
       sortedAlertItemsByName toLowerCase localeCompare sorted = sorted).
Proof.
  intros toLowerCase localeCompare Hc. split.
  - intros monitors sorted.
    destruct (by_name_sorted localeCompare Hc (lower_name toLowerCase) monitors)
      as [Hs Hi].
    split; [apply array_sort_perm|]. split; [|exact Hi].
    intros l1 a l2 b l3 H. unfold sorted, sortedMonitorsByName in H.
    unfold compareMonitorsName in H. rewrite H in Hs.
    apply sorted_pair in Hs. exact Hs.
  - intros items sorted.
    destruct (by_name_sorted localeCompare Hc
                (fun it => lower_name toLowerCase (AlertItem.monitor it)) items)
      as [Hs Hi].
    split; [apply array_sort_perm|]. split; [|exact Hi].
    intros l1 a l2 b l3 H. unfold sorted, sortedAlertItemsByName in H.
    unfold compareAlertItemsName in H. rewrite H in Hs.
    apply sorted_pair in Hs. exact Hs.
Qed.

Lemma sample_lengthCompare_consistent : consistent sample_lengthCompare.
Proof. unfold consistent, sample_lengthCompare. split; intros; lia. Qed.

Lemma sort_by_name_ordered_and_idempotent_witness :
  let monitors := [sample_summary "gamma"; sample_summary "b"; sample_summary "alpha"] in
  let sorted := sortedMonitorsByName sample_toLowerCase sample_lengthCompare (Some monitors) in
  Permutation monitors sorted /\
  (forall l1 a l2 b l3,
     sorted = l1 ++ a :: l2 ++ b :: l3 ->
     (sample_lengthCompare (lower_name sample_toLowerCase a)
                           (lower_name sample_toLowerCase b) <= 0)%Z) /\
  sortedMonitorsByName sample_toLowerCase sample_lengthCompare (Some sorted) = sorted.
Proof.
  apply (proj1 (sort_by_name_ordered_and_idempotent
                  sample_toLowerCase sample_lengthCompare
                  sample_lengthCompare_consistent)).
Defined.
(** ** Sorting alerts by status and by level *)

Section ByStatusAndLevel.

(** The table of severity ranks. *)
Lemma severity_rank_table :
  severity_rank "critical" = 0%Z /\
  severity_rank "high" = 1%Z /\
  severity_rank "medium" = 2%Z /\
  severity_rank "low" = 3%Z /\
  (forall level : string,
     level <> "critical"%string -> level <> "high"%string ->
     level <> "medium"%string -> level <> "low"%string ->
     severity_rank level = 4%Z).
Proof.
  repeat (split; [reflexivity|]).
  intros level Hc Hh Hm Hl. unfold severity_rank.
  apply String.eqb_neq in Hc, Hh, Hm, Hl. rewrite Hc, Hh, Hm, Hl. reflexivity.
Qed.

(** What the comparators read, [levelOrder[level] ?? 4], is the severity
    rank of the level, unless the level names an inherited property. *)
Lemma level_or_4_plain :
  forall level,
    plain_level level = true ->
    level_or_4 level = LevelNumber (severity_rank level).
Proof.
  intros level. unfold plain_level, level_or_4, levelOrder_get, severity_rank.
  destruct (String.eqb level "critical"); [reflexivity|].
  destruct (String.eqb level "high"); [reflexivity|].
  destruct (String.eqb level "medium"); [reflexivity|].
  destruct (String.eqb level "low"); [reflexivity|].
  destruct (existsb (String.eqb level) Object_prototype_keys);
    [discriminate | reflexivity].
Qed.

Lemma level_or_4_items :
  forall (items sorted : list AlertItem.t),
    Forall item_plain items ->
    Permutation items sorted ->
    forall item, In item sorted ->
      level_or_4 (item_level item) = LevelNumber (severity_rank (item_level item)).
Proof.
  intros items sorted Hp Hperm item Hin.
  apply level_or_4_plain.
  apply (proj1 (Forall_forall _ _) Hp).
  apply (Permutation_in _ (Permutation_sym Hperm) Hin).
Qed.

Lemma level_minus_plain :
  forall la lb,
    plain_level la = true -> plain_level lb = true ->
    level_minus (level_or_4 la) (level_or_4 lb) = (severity_rank la - severity_rank lb)%Z /\
    level_differs (level_or_4 la) (level_or_4 lb)
      = negb (severity_rank la =? severity_rank lb)%Z.
Proof.
  intros la lb Ha Hb.
  rewrite (level_or_4_plain la Ha), (level_or_4_plain lb Hb). auto.
Qed.

Lemma status_before_trans :
  forall a b c, status_before a b -> status_before b c -> status_before a c.
Proof.
  unfold status_before. intros a b c [H1 H2] [H3 H4].
  destruct (AlertItem.isActive a), (AlertItem.isActive b), (AlertItem.isActive c);
    split; intros; try congruence; try (specialize (H2 eq_refl); specialize (H4 eq_refl); lia);
    try (exfalso; (discriminate (H1 eq_refl) || discriminate (H3 eq_refl))).
Qed.

Lemma level_before_trans :
  forall a b c, level_before a b -> level_before b c -> level_before a c.
Proof.
  unfold level_before. intros a b c [H1 H2] [H3 H4]. split; [lia|].
  intros E Hc. apply H2; [lia|]. apply H4; [lia | exact Hc].
Qed.

Lemma compareAlertItemsStatus_sound :
  forall a b,
    item_plain a -> item_plain b ->
    ((0 < compareAlertItemsStatus a b)%Z -> status_before b a) /\
    ((compareAlertItemsStatus a b <= 0)%Z -> status_before a b).
Proof.
  intros a b Pa Pb. unfold compareAlertItemsStatus, status_before.
  destruct (level_minus_plain _ _ Pa Pb) as [Hm _].
  fold (item_level a) (item_level b). cbv zeta. rewrite Hm.
  destruct (AlertItem.isActive a), (AlertItem.isActive b); simpl;
    split; intros H; split; intros; try congruence; try lia.
Qed.

Lemma compareAlertItemsLevel_sound :
  forall a b,
    item_plain a -> item_plain b ->
    ((0 < compareAlertItemsLevel a b)%Z -> level_before b a) /\
    ((compareAlertItemsLevel a b <= 0)%Z -> level_before a b).
Proof.
  intros a b Pa Pb. unfold compareAlertItemsLevel, level_before.
  destruct (level_minus_plain _ _ Pa Pb) as [Hm Hd].
  fold (item_level a) (item_level b). cbv zeta. rewrite Hm, Hd.
  destruct (severity_rank (item_level a) =? severity_rank (item_level b))%Z eqn:E;
    simpl.
  - apply Z.eqb_eq in E.
    destruct (AlertItem.isActive a), (AlertItem.isActive b); simpl;
      split; intros H; split; intros; try congruence; try lia.
  - apply Z.eqb_neq in E. split; intros H; split; intros; lia.
Qed.

End ByStatusAndLevel.

(** X6: sorting the alerts by status, the levels being ordinary level
    names, puts every active item in front of every inactive one, so that
    the sorted list is the Active section followed by the Configured
    section, and orders the items of equal status by ascending severity
    rank.  The rank is the number the comparator reads for the item's
    level, and it is critical 0, high 1, medium 2, low 3, anything
    else 4. *)
Theorem sort_by_status_active_first :
  forall items : list AlertItem.t,
    Forall (fun item =>
              plain_level (AlertConfig.alert_level (AlertItem.config item)) = true)
           items ->
    let sorted := sortedAlertItemsByStatus items in
    Permutation items sorted /\
    sorted = activeAlerts sorted ++ configuredAlerts sorted /\
    (forall l1 a l2 b l3,
       sorted = l1 ++ a :: l2 ++ b :: l3 ->
       (AlertItem.isActive b = true -> AlertItem.isActive a = true) /\
       (AlertItem.isActive a = AlertItem.isActive b ->
        (severity_rank (AlertConfig.alert_level (AlertItem.config a))
         <= severity_rank (AlertConfig.alert_level (AlertItem.config b)))%Z)) /\
    (forall item,
       In item sorted ->
       level_or_4 (AlertConfig.alert_level (AlertItem.config item))
       = LevelNumber (severity_rank (AlertConfig.alert_level (AlertItem.config item)))) /\
    (severity_rank "critical" = 0%Z /\
     severity_rank "high" = 1%Z /\
     severity_rank "medium" = 2%Z /\
     severity_rank "low" = 3%Z /\
     (forall level : string,
        level <> "critical"%string -> level <> "high"%string ->
        level <> "medium"%string -> level <> "low"%string ->
        severity_rank level = 4%Z)).
Proof.
  intros items Hp sorted.
  assert (Hs : StronglySorted status_before sorted).
  { apply (array_sort_sorted_on compareAlertItemsStatus item_plain status_before).
    - intros a b c _ _ _. apply status_before_trans.
    - intros a b Pa Pb. apply (proj1 (compareAlertItemsStatus_sound a b Pa Pb)).
    - intros a b Pa Pb. apply (proj2 (compareAlertItemsStatus_sound a b Pa Pb)).
    - exact Hp. }
  assert (Hperm : Permutation items sorted) by apply array_sort_perm.
  split; [exact Hperm|]. split; [|split; [|split]].
  - apply (filter_split_sorted (fun item => AlertItem.isActive item)).
    eapply StronglySorted_ind with (P := fun l => StronglySorted _ l);
      [constructor | | exact Hs].
    intros a l _ IH Ha. constructor; [exact IH|].
    eapply Forall_impl; [|exact Ha]. intros b [H _]. exact H.
  - intros l1 a l2 b l3 H. rewrite H in Hs. apply sorted_pair in Hs. exact Hs.
  - exact (level_or_4_items items sorted Hp Hperm).
  - exact severity_rank_table.
Qed.

Lemma sort_by_status_active_first_witness :
  let sorted := sortedAlertItemsByStatus sample_alert_items in
  Permutation sample_alert_items sorted /\
  sorted = activeAlerts sorted ++ configuredAlerts sorted /\
  (forall l1 a l2 b l3,
     sorted = l1 ++ a :: l2 ++ b :: l3 ->
     (AlertItem.isActive b = true -> AlertItem.isActive a = true) /\
     (AlertItem.isActive a = AlertItem.isActive b ->
      (severity_rank (AlertConfig.alert_level (AlertItem.config a))
       <= severity_rank (AlertConfig.alert_level (AlertItem.config b)))%Z)) /\
  (forall item,
     In item sorted ->
     level_or_4 (AlertConfig.alert_level (AlertItem.config item))
     = LevelNumber (severity_rank (AlertConfig.alert_level (AlertItem.config item)))) /\
  (severity_rank "critical" = 0%Z /\
   severity_rank "high" = 1%Z /\
   severity_rank "medium" = 2%Z /\
   severity_rank "low" = 3%Z /\
   (forall level : string,
      level <> "critical"%string -> level <> "high"%string ->
      level <> "medium"%string -> level <> "low"%string ->
      severity_rank level = 4%Z)).
Proof.
  apply (sort_by_status_active_first sample_alert_items).
  repeat (constructor; [vm_compute; reflexivity|]). constructor.
Defined.

(** The sample items sorted by status: the active ones by rank (critical,
    high, medium), then the others by rank (critical, low, and the
    unknown level last). *)
Example sortedAlertItemsByStatus_sample :
  item_ids (sortedAlertItemsByStatus sample_alert_items)
  = ["m2"; "m5"; "m6"; "m4"; "m1"; "m3"].
Proof. vm_compute. reflexivity. Qed.

(** X7: sorting the alerts by level, the levels being ordinary level
    names, orders the items by ascending severity rank and, within one
    rank, puts the active items first.  The rank is the number the
    comparator reads for the item's level, and it is critical 0, high 1,
    medium 2, low 3, anything else 4. *)
Theorem sort_by_level_ascending :
  forall items : list AlertItem.t,
    Forall (fun item =>
              plain_level (AlertConfig.alert_level (AlertItem.config item)) = true)
           items ->
    let sorted := sortedAlertItemsByLevel items in
    Permutation items sorted /\
    (forall l1 a l2 b l3,
       sorted = l1 ++ a :: l2 ++ b :: l3 ->
       let ra := severity_rank (AlertConfig.alert_level (AlertItem.config a)) in
       let rb := severity_rank (AlertConfig.alert_level (AlertItem.config b)) in
       (ra <= rb)%Z /\
       (ra = rb -> AlertItem.isActive b = true -> AlertItem.isActive a = true)) /\
    (forall item,
       In item sorted ->
       level_or_4 (AlertConfig.alert_level (AlertItem.config item))
       = LevelNumber (severity_rank (AlertConfig.alert_level (AlertItem.config item)))) /\
    (severity_rank "critical" = 0%Z /\
     severity_rank "high" = 1%Z /\
     severity_rank "medium" = 2%Z /\
     severity_rank "low" = 3%Z /\
     (forall level : string,
        level <> "critical"%string -> level <> "high"%string ->
        level <> "medium"%string -> level <> "low"%string ->
        severity_rank level = 4%Z)).
Proof.
  intros items Hp sorted.
  assert (Hs : StronglySorted level_before sorted).
  { apply (array_sort_sorted_on compareAlertItemsLevel item_plain level_before).
    - intros a b c _ _ _. apply level_before_trans.
    - intros a b Pa Pb. apply (proj1 (compareAlertItemsLevel_sound a b Pa Pb)).
    - intros a b Pa Pb. apply (proj2 (compareAlertItemsLevel_sound a b Pa Pb)).
    - exact Hp. }
  assert (Hperm : Permutation items sorted) by apply array_sort_perm.
  split; [exact Hperm|]. split; [|split].
  - intros l1 a l2 b l3 H. rewrite H in Hs. apply sorted_pair in Hs. exact Hs.
  - exact (level_or_4_items items sorted Hp Hperm).
  - exact severity_rank_table.
Qed.

Lemma sort_by_level_ascending_witness :
  let sorted := sortedAlertItemsByLevel sample_alert_items in
  Permutation sample_alert_items sorted /\
  (forall l1 a l2 b l3,
     sorted = l1 ++ a :: l2 ++ b :: l3 ->
     let ra := severity_rank (AlertConfig.alert_level (AlertItem.config a)) in
     let rb := severity_rank (AlertConfig.alert_level (AlertItem.config b)) in
     (ra <= rb)%Z /\
     (ra = rb -> AlertItem.isActive b = true -> AlertItem.isActive a = true)) /\
  (forall item,
     In item sorted ->
     level_or_4 (AlertConfig.alert_level (AlertItem.config item))
     = LevelNumber (severity_rank (AlertConfig.alert_level (AlertItem.config item)))) /\
  (severity_rank "critical" = 0%Z /\
   severity_rank "high" = 1%Z /\
   severity_rank "medium" = 2%Z /\
   severity_rank "low" = 3%Z /\
   (forall level : string,
      level <> "critical"%string -> level <> "high"%string ->
      level <> "medium"%string -> level <> "low"%string ->
      severity_rank level = 4%Z)).
Proof.
  apply (sort_by_level_ascending sample_alert_items).
  repeat (constructor; [vm_compute; reflexivity|]). constructor.
Defined.

(** The sample items sorted by level: by rank, the active critical item
    in front of the inactive one, the unknown level last. *)
Example sortedAlertItemsByLevel_sample :
  item_ids (sortedAlertItemsByLevel sample_alert_items)
  = ["m2"; "m4"; "m5"; "m6"; "m1"; "m3"].
Proof. vm_compute. reflexivity. Qed.

(** ** Sorting monitors by alert status, and the menu bar order *)

Section ByAlertStatus.

Variable toLowerCase : string -> string.
Variable localeCompare : string -> string -> Z.
Hypothesis localeCompare_consistent : consistent localeCompare.
Variable alerts : option (JsMap AlertConfig.t).



End ByAlertStatus.



Section MenuBarOrder.

Variable toLowerCase : string -> string.
Variable localeCompare : string -> string -> Z.
Variable customOrder : list string.

Lemma menu_comparator_sound :
  forall a b : MonitorSummary.t,
    let ka := MonitorSummary.monitor_id a in
    let kb := MonitorSummary.monitor_id b in
    let c :=
      (let indexA := indexOf customOrder ka in
       let indexB := indexOf customOrder kb in
       if negb (indexA =? -1)%Z && negb (indexB =? -1)%Z then (indexA - indexB)%Z
       else if negb (indexA =? -1)%Z then (-1)%Z
       else if negb (indexB =? -1)%Z then 1%Z
       else localeCompare (menu_lower_name toLowerCase a) (menu_lower_name toLowerCase b)) in
    ((0 < c)%Z -> custom_before customOrder kb ka) /\
    ((c <= 0)%Z -> custom_before customOrder ka kb).
Proof.
  intros a b ka kb c. subst c. cbv zeta.
  destruct (indexOf customOrder ka =? -1)%Z eqn:Ea;
    destruct (indexOf customOrder kb =? -1)%Z eqn:Eb; cbn [negb andb].
  - apply indexOf_unlisted in Ea, Eb.
    split; intros _; apply custom_before_unlisted; assumption.
  - apply indexOf_unlisted in Ea. apply indexOf_listed in Eb.
    split; [intros _; apply custom_before_unlisted; assumption | lia].
  - apply indexOf_listed in Ea. apply indexOf_unlisted in Eb.
    split; [lia | intros _; apply custom_before_unlisted; assumption].
  - apply indexOf_listed in Ea, Eb.
    split; intros H; (split; [auto | intros _ _; lia]).
Qed.

End MenuBarOrder.

(** X9: the menu bar's [sortByCustomOrder] returns a rearrangement of its
    items in which no monitor missing from the custom order stands in
    front of a listed one and two listed monitors stand in the order of
    the first positions of their ids in the custom order; with an empty
    custom order and a consistent [localeCompare] the items are in the
    order of their lower-cased names. *)
Theorem sortByCustomOrder_listed_first :
  forall (toLowerCase : string -> string) (localeCompare : string -> string -> Z)
         (customOrder : list string) (items : list MonitorSummary.t),
    let sorted := sortByCustomOrder toLowerCase localeCompare customOrder items in
    Permutation items sorted /\
    (forall l1 a l2 b l3,
       sorted = l1 ++ a :: l2 ++ b :: l3 ->
       let ida := MonitorSummary.monitor_id a in
       let idb := MonitorSummary.monitor_id b in
       (In idb customOrder -> In ida customOrder) /\
       (In ida customOrder -> In idb customOrder ->
        exists pa pb,
          first_position customOrder ida pa /\
          first_position customOrder idb pb /\
          pa <= pb)) /\
    (customOrder = [] -> consistent localeCompare ->
     forall l1 a l2 b l3,
       sorted = l1 ++ a :: l2 ++ b :: l3 ->
       (localeCompare (menu_lower_name toLowerCase a)
                      (menu_lower_name toLowerCase b) <= 0)%Z).
Proof.
  intros toLowerCase localeCompare customOrder items sorted.
  split; [|split].
  - unfold sorted, sortByCustomOrder.
    destruct (Nat.eqb (List.length customOrder) 0); apply array_sort_perm.
  - intros l1 a l2 b l3 H.
    destruct (Nat.eqb (List.length customOrder) 0) eqn:Elen.
    + destruct customOrder; [|discriminate Elen]. split; intros [].
    + assert (Hs : StronglySorted
                     (fun x y => custom_before customOrder
                                   (MonitorSummary.monitor_id x)
                                   (MonitorSummary.monitor_id y)) sorted).
      { unfold sorted, sortByCustomOrder. rewrite Elen.
        apply array_sort_sorted.
        - intros x y z. apply custom_before_trans.
        - intros x y.
          apply (proj1 (menu_comparator_sound toLowerCase localeCompare customOrder x y)).
        - intros x y.
          apply (proj2 (menu_comparator_sound toLowerCase localeCompare customOrder x y)). }
      rewrite H in Hs. apply sorted_pair in Hs.
      apply custom_before_positions. exact Hs.
  - intros -> Hc l1 a l2 b l3 H.
    destruct (by_name_sorted localeCompare Hc (menu_lower_name toLowerCase) items)
      as [Hs _].
    unfold sorted, sortByCustomOrder in H. cbn [List.length Nat.eqb] in H.
    rewrite H in Hs. apply sorted_pair in Hs. exact Hs.
Qed.

Lemma sortByCustomOrder_listed_first_witness :
  ((In "m1" ["m3"; "m1"] -> In "m3" ["m3"; "m1"]) /\
   (In "m3" ["m3"; "m1"] -> In "m1" ["m3"; "m1"] ->
    exists pa pb,
      first_position ["m3"; "m1"] "m3" pa /\
      first_position ["m3"; "m1"] "m1" pb /\
      pa <= pb))
  /\
  ((In "m2" ["m3"; "m1"] -> In "m1" ["m3"; "m1"]) /\
   (In "m1" ["m3"; "m1"] -> In "m2" ["m3"; "m1"] ->
    exists pa pb,
      first_position ["m3"; "m1"] "m1" pa /\
      first_position ["m3"; "m1"] "m2" pb /\
      pa <= pb))
  /\
  (sample_lengthCompare
     (menu_lower_name sample_toLowerCase (sample_summary "b"))
     (menu_lower_name sample_toLowerCase (sample_summary "alpha")) <= 0)%Z.
Proof.
  split; [|split].
  - apply (proj1 (proj2 (sortByCustomOrder_listed_first
                           sample_toLowerCase sample_localeCompare ["m3"; "m1"]
                           [sample_summary "m1"; sample_summary "m2"; sample_summary "m3"]))
             [] (sample_summary "m3") [] (sample_summary "m1") [sample_summary "m2"]).
    vm_compute. reflexivity.
  - apply (proj1 (proj2 (sortByCustomOrder_listed_first
                           sample_toLowerCase sample_localeCompare ["m3"; "m1"]
                           [sample_summary "m1"; sample_summary "m2"; sample_summary "m3"]))
             [sample_summary "m3"] (sample_summary "m1") [] (sample_summary "m2") []).
    vm_compute. reflexivity.
  - apply (proj2 (proj2 (sortByCustomOrder_listed_first
                           sample_toLowerCase sample_lengthCompare []
                           [sample_summary "gamma"; sample_summary "b"; sample_summary "alpha"]))
             eq_refl sample_lengthCompare_consistent
             [] (sample_summary "b") [sample_summary "gamma"] (sample_summary "alpha") []).
    vm_compute. reflexivity.
Defined.

(** The menu bar's order of three monitors under the custom order
    [m3, m1]: the listed ones by position, the unlisted one behind. *)
Example sortByCustomOrder_sample :
  map MonitorSummary.monitor_id
    (sortByCustomOrder sample_toLowerCase sample_localeCompare ["m3"; "m1"]
       [sample_summary "m1"; sample_summary "m2"; sample_summary "m3"])
  = ["m3"; "m1"; "m2"].
Proof. vm_compute. reflexivity. Qed.

(** ** Joining monitors and configs *)

Section MapFacts.

Context {V : Type}.

Lemma Map_get_set :
  forall (m : JsMap V) key v key',
    Map_get (Map_set m key v) key' =
    if String.eqb key key' then Some v else Map_get m key'.
Proof.
  induction m as [|[k v0] m IH]; intros key v key'; simpl.
  - reflexivity.
  - destruct (String.eqb k key) eqn:E; simpl.
    + apply String.eqb_eq in E. subst k.
      destruct (String.eqb key key'); reflexivity.
    + rewrite IH. destruct (String.eqb k key') eqn:E'; [|reflexivity].
      apply String.eqb_eq in E'. subst k. rewrite String.eqb_sym, E. reflexivity.
Qed.

Lemma Map_of_entries_snoc :
  forall (entries : list (string * V)) kv,
    Map_of_entries (entries ++ [kv]) = Map_set (Map_of_entries entries) (fst kv) (snd kv).
Proof. intros entries kv. unfold Map_of_entries. rewrite fold_left_app. reflexivity. Qed.

End MapFacts.

(** Of several configs naming one monitor the map keeps the last. *)
Lemma alertMap_last_wins :
  forall alerts id, Map_get (alertMap_of alerts) id = last_config_for alerts id.
Proof.
  intros alerts id. unfold alertMap_of, last_config_for.
  induction alerts as [|a alerts IH] using rev_ind; [reflexivity|].
  rewrite map_app, rev_app_distr. simpl map. rewrite Map_of_entries_snoc, Map_get_set.
  simpl. destruct (String.eqb (AlertConfig.monitor_id a) id); [reflexivity | exact IH].
Qed.

Lemma last_config_for_some :
  forall alerts id,
    (exists c, last_config_for alerts id = Some c) <->
    existsb (fun a => String.eqb (AlertConfig.monitor_id a) id) alerts = true.
Proof.
  intros alerts id. unfold last_config_for. split.
  - intros (c & H). apply find_some in H. destruct H as [Hin Heq].
    apply existsb_exists. exists c. split; [apply in_rev; exact Hin | exact Heq].
  - intros H. apply existsb_exists in H. destruct H as (a & Hin & Heq).
    destruct (find _ (rev alerts)) as [c|] eqn:E; [eauto|].
    apply in_rev in Hin. apply (find_none _ _ E) in Hin. congruence.
Qed.

Lemma alertItems_flat_map :
  forall monitors alerts,
    alertItems (Some monitors) (Some alerts) =
    flat_map
      (fun monitor =>
         match last_config_for alerts (MonitorSummary.monitor_id monitor) with
         | Some config =>
             [ {| AlertItem.monitor := monitor;
                  AlertItem.config := config;
                  AlertItem.isActive :=
                    isValueOutOfRange (MonitorSummary.latest_value monitor)
                      (AlertConfig.upper_threshold config)
                      (AlertConfig.lower_threshold config) |} ]
         | None => []
         end)
      monitors.
Proof.
  intros monitors alerts.
  assert (G : forall ms acc0,
            fold_left
              (fun items monitor =>
                 match Map_get (alertMap_of alerts) (MonitorSummary.monitor_id monitor) with
                 | Some config =>
                     items ++ [ {| AlertItem.monitor := monitor;
                                   AlertItem.config := config;
                                   AlertItem.isActive :=
                                     isValueOutOfRange (MonitorSummary.latest_value monitor)
                                       (AlertConfig.upper_threshold config)
                                       (AlertConfig.lower_threshold config) |} ]
                 | None => items
                 end) ms acc0
            = acc0 ++
              flat_map
                (fun monitor =>
                   match last_config_for alerts (MonitorSummary.monitor_id monitor) with
                   | Some config =>
                       [ {| AlertItem.monitor := monitor;
                            AlertItem.config := config;
                            AlertItem.isActive :=
                              isValueOutOfRange (MonitorSummary.latest_value monitor)
                                (AlertConfig.upper_threshold config)
                                (AlertConfig.lower_threshold config) |} ]
                   | None => []
                   end) ms).
  { induction ms as [|m ms IH]; intros acc0; simpl.
    - rewrite app_nil_r. reflexivity.
    - rewrite IH, alertMap_last_wins.
      destruct (last_config_for alerts (MonitorSummary.monitor_id m));
        [rewrite <- app_assoc|]; reflexivity. }
  exact (G monitors []).
Qed.

(** X10: the alerts view shows one item for every fetched monitor that
    some config names, in the order of the monitor list; the item carries
    the last config of the array that names the monitor, and is active
    exactly when the evaluator finds the monitor's value out of that
    config's range.  Without monitors or without configs there is no
    item. *)
Theorem alertItems_last_config_wins :
  forall monitors alerts,
    let items := alertItems (Some monitors) (Some alerts) in
    map AlertItem.monitor items =
      filter (fun m =>
                existsb (fun a => String.eqb (AlertConfig.monitor_id a)
                                             (MonitorSummary.monitor_id m)) alerts)
             monitors
    /\
    Forall (fun item =>
              last_config_for alerts (MonitorSummary.monitor_id (AlertItem.monitor item))
                = Some (AlertItem.config item) /\
              AlertConfig.monitor_id (AlertItem.config item)
                = MonitorSummary.monitor_id (AlertItem.monitor item) /\
              AlertItem.isActive item =
                isValueOutOfRange (MonitorSummary.latest_value (AlertItem.monitor item))
                  (AlertConfig.upper_threshold (AlertItem.config item))
                  (AlertConfig.lower_threshold (AlertItem.config item)))
           items
    /\
    alertItems None (Some alerts) = [] /\
    alertItems (Some monitors) None = [].
Proof.
  intros monitors alerts items. subst items. rewrite alertItems_flat_map.
  split; [|split; [|split; reflexivity]].
  - induction monitors as [|m ms IH]; simpl; [reflexivity|].
    rewrite map_app, IH.
    destruct (last_config_for alerts (MonitorSummary.monitor_id m)) as [c|] eqn:E.
    + rewrite (proj1 (last_config_for_some alerts _) (ex_intro _ c E)). reflexivity.
    + destruct (existsb _ alerts) eqn:Ex; [|reflexivity].
      apply last_config_for_some in Ex. destruct Ex as (c & Hc). congruence.
  - induction monitors as [|m ms IH]; simpl; [constructor|].
    apply Forall_app. split; [|exact IH].
    destruct (last_config_for alerts (MonitorSummary.monitor_id m)) as [c|] eqn:E;
      [|constructor].
    constructor; [|constructor]. simpl. split; [exact E|]. split; [|reflexivity].
    unfold last_config_for in E. apply find_some in E. destruct E as [_ E].
    apply String.eqb_eq in E. exact E.
Qed.

(** ** The menu bar *)

(** X11: the pinned monitors are the configured ids that name a fetched
    monitor, in the order of the preference (an id written twice is pinned
    twice, an unknown id is skipped); each pinned monitor is a fetched
    one, and before the monitors are loaded nothing is pinned. *)
Theorem pinnedMonitors_follow_preference :
  forall monitorIds monitors,
    let pinned := pinnedMonitors monitorIds (Some monitors) in
    map MonitorSummary.monitor_id pinned =
      filter (fun id =>
                existsb (fun m => String.eqb (MonitorSummary.monitor_id m) id) monitors)
             monitorIds
    /\ Forall (fun m => In m monitors) pinned
    /\ pinnedMonitors monitorIds None = [].
Proof.
  intros monitorIds monitors pinned. subst pinned. unfold pinnedMonitors.
  split; [|split].
  - induction monitorIds as [|id ids IH]; simpl; [reflexivity|].
    rewrite map_app, IH.
    destruct (find _ monitors) as [m|] eqn:E.
    + pose proof (find_some _ _ E) as [Hin Heq].
      assert (Ex : existsb (fun m => String.eqb (MonitorSummary.monitor_id m) id)
                     monitors = true)
        by (apply existsb_exists; eauto).
      rewrite Ex. simpl. apply String.eqb_eq in Heq. rewrite Heq. reflexivity.
    + destruct (existsb _ monitors) eqn:Ex; [|reflexivity].
      apply existsb_exists in Ex. destruct Ex as (m & Hin & Heq).
      apply (find_none _ _ E) in Hin. congruence.
  - induction monitorIds as [|id ids IH]; simpl; [constructor|].
    apply Forall_app. split; [|exact IH].
    destruct (find _ monitors) as [m|] eqn:E; [|constructor].
    apply find_some in E. constructor; [tauto | constructor].
  - induction monitorIds as [|id ids IH]; simpl; [reflexivity | exact IH].
Qed.

Section Rotation.

Variable pinned : list MonitorSummary.t.

Lemma primaryMonitor_mod :
  forall i,
    primaryMonitor pinned (i mod List.length pinned) = primaryMonitor pinned i.
Proof.
  intros i. unfold primaryMonitor.
  destruct (Nat.ltb 0 (List.length pinned)); [|reflexivity].
  rewrite Nat.Div0.mod_mod. reflexivity.
Qed.

Lemma tick_iter_index :
  forall k i,
    1 < List.length pinned ->
    (Nat.iter k (tick pinned) i) mod List.length pinned = (i + k) mod List.length pinned.
Proof.
  intros k i Hn. induction k as [|k IH]; simpl.
  - rewrite Nat.add_0_r. reflexivity.
  - unfold tick at 1.
    destruct (Nat.leb (List.length pinned) 1) eqn:E;
      [apply Nat.leb_le in E; lia|].
    rewrite Nat.Div0.mod_mod, <- Nat.Div0.add_mod_idemp_l, IH.
    rewrite Nat.Div0.add_mod_idemp_l.
    replace (i + S k) with (i + k + 1) by lia. reflexivity.
Qed.

End Rotation.

(** X12: whenever a monitor is pinned the menu bar title has a monitor
    to show, one of the pinned ones, whatever the rotation index; with
    more than one pinned monitor the monitor shown after [k] periods of
    the timer is the one [k] places further in the pinned list, wrapping
    around; with at most one the index stays. *)
Theorem primaryMonitor_rotates :
  forall pinned : list MonitorSummary.t,
    (pinned <> [] ->
     forall currentIndex,
       exists m, primaryMonitor pinned currentIndex = Some m /\ In m pinned)
    /\
    (1 < List.length pinned ->
     forall currentIndex k,
       primaryMonitor pinned (Nat.iter k (tick pinned) currentIndex) =
       nth_error pinned ((currentIndex + k) mod List.length pinned))
    /\
    (List.length pinned <= 1 -> forall currentIndex, tick pinned currentIndex = currentIndex)
    /\
    primaryMonitor [] 0 = None.
Proof.
  intros pinned. split; [|split; [|split; [|reflexivity]]].
  - intros Hne i. unfold primaryMonitor.
    assert (Hlen : 0 < List.length pinned)
      by (destruct pinned; [congruence | simpl; lia]).
    rewrite (proj2 (Nat.ltb_lt _ _) Hlen).
    assert (Hi : i mod List.length pinned < List.length pinned)
      by (apply Nat.mod_upper_bound; lia).
    destruct (nth_error pinned (i mod List.length pinned)) as [m|] eqn:E.
    + exists m. split; [reflexivity|]. eapply nth_error_In; eauto.
    + apply nth_error_None in E. lia.
  - intros Hn i k. rewrite <- (primaryMonitor_mod pinned), (tick_iter_index pinned k i Hn).
    unfold primaryMonitor.
    rewrite (proj2 (Nat.ltb_lt 0 (List.length pinned))) by lia.
    rewrite Nat.Div0.mod_mod. reflexivity.
  - intros Hn i. unfold tick. rewrite (proj2 (Nat.leb_le _ _) Hn). reflexivity.
Qed.

Lemma primaryMonitor_rotates_witness :
  let pinned := [sample_summary "m1"; sample_summary "m2"; sample_summary "m3"] in
  (exists m, primaryMonitor pinned 7 = Some m /\ In m pinned) /\
  primaryMonitor pinned (Nat.iter 4 (tick pinned) 0) =
    nth_error pinned ((0 + 4) mod List.length pinned) /\
  tick [sample_summary "m1"] 0 = 0.
Proof.
  split; [|split].
  - apply (proj1 (primaryMonitor_rotates
                    [sample_summary "m1"; sample_summary "m2"; sample_summary "m3"])).
    discriminate.
  - apply (proj1 (proj2 (primaryMonitor_rotates
                    [sample_summary "m1"; sample_summary "m2"; sample_summary "m3"]))).
    simpl. lia.
  - apply (proj1 (proj2 (proj2 (primaryMonitor_rotates [sample_summary "m1"])))).
    simpl. lia.
Defined.

(** ** Reading back a saved threshold *)

Section MatcherRuns.

Lemma star_cls :
  forall p run rest caps k fuel,
    Forall (fun c => p c = true) run ->
    stops p rest ->
    List.length (run ++ rest) < fuel ->
    star (rmatch (Cls p)) fuel (run ++ rest) caps k = star_run k caps run rest.
Proof.
  intros p run rest caps k. induction run as [|c run IH]; intros fuel Hrun Hstop Hfuel.
  - destruct fuel as [|fuel]; [inversion Hfuel|]. simpl.
    destruct rest as [|c rest]; [reflexivity|].
    simpl in Hstop. rewrite Hstop. reflexivity.
  - destruct fuel as [|fuel]; [inversion Hfuel|].
    inversion Hrun as [|? ? Hc Hrun']; subst.
    cbn [star app rmatch]. rewrite Hc.
    assert (Hlt : Nat.ltb (List.length (run ++ rest)) (List.length (c :: run ++ rest)) = true)
      by (apply Nat.ltb_lt; simpl; lia).
    rewrite Hlt, IH; [reflexivity | exact Hrun' | exact Hstop | simpl in Hfuel; lia].
Qed.

Lemma star_run_succeeds :
  forall k caps run rest res,
    k rest caps = Some res -> star_run k caps run rest = Some res.
Proof.
  intros k caps run rest res H. induction run as [|c run IH]; simpl; [exact H|].
  rewrite IH. reflexivity.
Qed.

Lemma consumed_app :
  forall run rest, consumed (run ++ rest) rest = run.
Proof.
  intros run rest. unfold consumed. rewrite length_app.
  replace (List.length run + List.length rest - List.length rest) with (List.length run + 0)
    by lia.
  rewrite firstn_app_2. simpl. apply app_nil_r.
Qed.

End MatcherRuns.

Section MatcherSteps.

Lemma rmatch_cat :
  forall r1 r2 s caps k,
    rmatch (Cat r1 r2) s caps k = rmatch r1 s caps (fun s1 c1 => rmatch r2 s1 c1 k).
Proof. reflexivity. Qed.

Lemma rmatch_alt :
  forall r1 r2 s caps k,
    rmatch (Alt r1 r2) s caps k =
    match rmatch r1 s caps k with
    | Some res => Some res
    | None => rmatch r2 s caps k
    end.
Proof. reflexivity. Qed.

Lemma rmatch_star :
  forall r s caps k,
    rmatch (Star r) s caps k = star (rmatch r) (S (List.length s)) s caps k.
Proof. reflexivity. Qed.

Lemma rmatch_lit_eq :
  forall c s caps k, rmatch (Lit c) (c :: s) caps k = k s caps.
Proof. intros. simpl. rewrite Ascii.eqb_refl. reflexivity. Qed.

Lemma rmatch_lit_neq :
  forall c c' s caps k,
    Ascii.eqb c c' = false -> rmatch (Lit c) (c' :: s) caps k = None.
Proof. intros c c' s caps k H. simpl. rewrite H. reflexivity. Qed.

Lemma rmatch_plus_cls :
  forall p c s caps k,
    p c = true ->
    rmatch (Plus (Cls p)) (c :: s) caps k
    = star (rmatch (Cls p)) (S (List.length s)) s caps k.
Proof. intros p c s caps k H. cbn [rmatch]. rewrite H. reflexivity. Qed.

Lemma rmatch_plus_cls_fail :
  forall p c s caps k,
    p c = false -> rmatch (Plus (Cls p)) (c :: s) caps k = None.
Proof. intros p c s caps k H. cbn [rmatch]. rewrite H. reflexivity. Qed.

Lemma rmatch_grp :
  forall n r s caps k,
    rmatch (Grp n r) s caps k
    = rmatch r s caps (fun s1 caps1 => k s1 ((n, consumed s s1) :: caps1)).
Proof. reflexivity. Qed.

(** A digit or dot is neither white space nor the first character of a
    reference. *)
Lemma digit_or_dot_facts :
  forall c,
    digit_or_dot c = true ->
    white_space c = false /\ Ascii.eqb "$" c = false /\ Ascii.eqb "v" c = false.
Proof.
  intros [[] [] [] [] [] [] [] []]; vm_compute; intros H;
    try discriminate H; repeat split.
Qed.

Lemma reference_value :
  forall s caps k,
    rmatch reference_re (list_ascii_of_string "value" ++ s) caps k = k s caps.
Proof. reflexivity. Qed.

Lemma reference_head_fail :
  forall s caps k,
    match s with
    | [] => True
    | c :: _ => Ascii.eqb "$" c = false /\ Ascii.eqb "v" c = false
    end ->
    rmatch reference_re s caps k = None.
Proof.
  intros [|c s] caps k H; [reflexivity|]. destruct H as [H1 H2].
  unfold reference_re.
  change (lits "${monitor:") with (Cat (Lit "$") (lits "{monitor:")).
  change (lits "value") with (Cat (Lit "v") (lits "alue")).
  rewrite rmatch_alt, !rmatch_cat, (rmatch_lit_neq _ _ _ _ _ H1).
  rewrite ?rmatch_cat, (rmatch_lit_neq _ _ _ _ _ H2). reflexivity.
Qed.

(** The operator part of a pattern on [ OP d], [d] a run of digits and
    dots that ends at [tail]: the whole run is captured. *)
Lemma operator_match :
  forall op d tail caps,
    white_space op = false ->
    d <> [] ->
    Forall (fun c => digit_or_dot c = true) d ->
    stops digit_or_dot tail ->
    rmatch (operator_re op) (" "%char :: op :: " "%char :: d ++ tail) caps
      (fun rest caps' => Some (rest, caps'))
    = Some (tail, (1, d) :: caps).
Proof.
  intros op d tail caps Hop Hne Hd Htail.
  destruct d as [|c0 d]; [congruence|].
  inversion Hd as [|? ? Hc0 Hd']; subst.
  destruct (digit_or_dot_facts c0 Hc0) as (Hws0 & _ & _).
  unfold operator_re. rewrite rmatch_cat, rmatch_star.
  rewrite (star_cls white_space [" "%char] (op :: " "%char :: (c0 :: d) ++ tail));
    [|repeat constructor | exact Hop | simpl; lia].
  cbn [star_run app]. rewrite rmatch_cat, rmatch_lit_eq, rmatch_cat, rmatch_star.
  rewrite (star_cls white_space [" "%char] ((c0 :: d) ++ tail));
    [|repeat constructor | exact Hws0 | simpl; lia].
  cbn [star_run app]. rewrite rmatch_grp, (rmatch_plus_cls _ _ _ _ _ Hc0).
  rewrite (star_cls digit_or_dot d tail); [|exact Hd' | exact Htail | lia].
  rewrite (star_run_succeeds _ _ _ _ (tail, (1, consumed (c0 :: d ++ tail) tail) :: caps));
    [|reflexivity].
  f_equal. f_equal. f_equal. f_equal. exact (consumed_app (c0 :: d) tail).
Qed.

(** The operator part fails on another operator. *)
Lemma operator_mismatch :
  forall op op' rest caps k,
    white_space op = false ->
    Ascii.eqb op' op = false ->
    Ascii.eqb op' " " = false ->
    rmatch (operator_re op') (" "%char :: op :: rest) caps k = None.
Proof.
  intros op op' rest caps k Hop Hneq Hsp.
  unfold operator_re. rewrite rmatch_cat, rmatch_star.
  rewrite (star_cls white_space [" "%char] (op :: rest));
    [|repeat constructor | exact Hop | simpl; lia].
  cbn [star_run app].
  rewrite rmatch_cat, (rmatch_lit_neq _ _ _ _ _ Hneq).
  rewrite rmatch_cat, (rmatch_lit_neq _ _ _ _ _ Hsp). reflexivity.
Qed.

(** The operator part fails when no digit or dot follows the operator. *)
Lemma operator_no_number :
  forall op c rest caps k,
    white_space op = false ->
    Ascii.eqb op " " = false ->
    white_space c = false ->
    digit_or_dot c = false ->
    rmatch (operator_re op) (" "%char :: op :: " "%char :: c :: rest) caps k = None.
Proof.
  intros op c rest caps k Hop Hsp Hws Hnd.
  unfold operator_re. rewrite rmatch_cat, rmatch_star.
  rewrite (star_cls white_space [" "%char] (op :: " "%char :: c :: rest));
    [|repeat constructor | exact Hop | simpl; lia].
  cbn [star_run app]. rewrite rmatch_cat, rmatch_lit_eq, rmatch_cat, rmatch_star.
  rewrite (star_cls white_space [" "%char] (c :: rest));
    [|repeat constructor | exact Hws | simpl; lia].
  cbn [star_run app]. rewrite rmatch_grp, (rmatch_plus_cls_fail _ _ _ _ _ Hnd).
  rewrite rmatch_grp, rmatch_plus_cls_fail by reflexivity.
  rewrite rmatch_cat, (rmatch_lit_neq _ _ _ _ _ Hsp). reflexivity.
Qed.

End MatcherSteps.

Section SearchSteps.

Lemma search_hit :
  forall r s rest caps,
    match_here r s = Some (rest, caps) -> search r s = Some caps.
Proof. intros r s rest caps H. rewrite search_eq, H. reflexivity. Qed.

Lemma search_next :
  forall r c s, match_here r (c :: s) = None -> search r (c :: s) = search r s.
Proof. intros r c s H. rewrite search_eq, H. reflexivity. Qed.

Lemma threshold_re_head_fail :
  forall op c s,
    starts_no_reference c ->
    match_here (Cat reference_re (operator_re op)) (c :: s) = None.
Proof.
  intros op c s H. unfold match_here. rewrite rmatch_cat.
  apply reference_head_fail. exact H.
Qed.

Lemma threshold_re_skip :
  forall op pre s,
    Forall starts_no_reference pre ->
    search (Cat reference_re (operator_re op)) (pre ++ s)
    = search (Cat reference_re (operator_re op)) s.
Proof.
  intros op pre s H. induction H as [|c pre Hc _ IH]; [reflexivity|].
  simpl app. rewrite search_next; [exact IH|].
  apply threshold_re_head_fail. exact Hc.
Qed.

Lemma threshold_re_none :
  forall op s,
    Forall starts_no_reference s ->
    search (Cat reference_re (operator_re op)) s = None.
Proof.
  intros op s H. rewrite <- (app_nil_r s), threshold_re_skip by exact H.
  reflexivity.
Qed.

Lemma monitorId_re_none :
  forall s,
    Forall (fun c => Ascii.eqb "$" c = false) s -> search monitorId_re s = None.
Proof.
  intros s H. induction H as [|c s Hc _ IH]; [reflexivity|].
  rewrite search_next; [exact IH|].
  unfold match_here, monitorId_re.
  change (lits "${monitor:") with (Cat (Lit "$") (lits "{monitor:")).
  rewrite !rmatch_cat, (rmatch_lit_neq _ _ _ _ _ Hc). reflexivity.
Qed.

(** The clause [value OP d] is matched at its start by the pattern of its
    operator, which captures [d]. *)
Lemma clause_match :
  forall op d tail,
    white_space op = false ->
    d <> [] ->
    Forall (fun c => digit_or_dot c = true) d ->
    stops digit_or_dot tail ->
    search (Cat reference_re (operator_re op)) (clause_chars op (d ++ tail))
    = Some [(1, d)].
Proof.
  intros op d tail Hop Hne Hd Htail.
  apply (search_hit _ _ tail). unfold match_here, clause_chars.
  rewrite rmatch_cat.
  change (list_ascii_of_string "value " ++ ?x)
    with (list_ascii_of_string "value" ++ " "%char :: x).
  rewrite reference_value. apply operator_match; assumption.
Qed.

(** It is passed over by the pattern of the other operator. *)
Lemma clause_skip :
  forall op op' rest,
    white_space op = false ->
    starts_no_reference op ->
    Ascii.eqb op' op = false ->
    Ascii.eqb op' " " = false ->
    search (Cat reference_re (operator_re op')) (clause_chars op rest)
    = search (Cat reference_re (operator_re op')) rest.
Proof.
  intros op op' rest Hop Hnr Hneq Hsp. unfold clause_chars.
  change (list_ascii_of_string "value " ++ op :: " "%char :: rest)
    with ("v"%char :: list_ascii_of_string "alue " ++ op :: " "%char :: rest).
  rewrite search_next.
  - change (list_ascii_of_string "alue " ++ op :: " "%char :: rest)
      with ((list_ascii_of_string "alue " ++ [op; " "%char]) ++ rest).
    apply threshold_re_skip.
    repeat (constructor; [split; reflexivity|]).
    constructor; [exact Hnr|]. repeat constructor.
  - unfold match_here. rewrite rmatch_cat.
    change ("v"%char :: list_ascii_of_string "alue " ++ op :: " "%char :: rest)
      with (list_ascii_of_string "value" ++ " "%char :: op :: " "%char :: rest).
    rewrite reference_value. apply operator_mismatch; assumption.
Qed.

Lemma plain_decimal_chars :
  forall d,
    plain_decimal d = true ->
    list_ascii_of_string d <> [] /\
    Forall (fun c => digit_or_dot c = true) (list_ascii_of_string d).
Proof.
  intros d H. unfold plain_decimal in H. apply andb_prop in H. destruct H as [Hne Hall].
  split.
  - intros E. apply negb_true_iff, String.eqb_neq in Hne. apply Hne.
    rewrite <- (string_of_list_ascii_of_string d), E. reflexivity.
  - apply Forall_forall. rewrite forallb_forall in Hall. exact Hall.
Qed.

Lemma digits_start_no_reference :
  forall d,
    Forall (fun c => digit_or_dot c = true) d -> Forall starts_no_reference d.
Proof.
  intros d H. eapply Forall_impl; [|exact H].
  intros c Hc. destruct (digit_or_dot_facts c Hc) as (_ & H1 & H2). split; assumption.
Qed.

End SearchSteps.

Section SavedConditions.

Variable NumberToString : number -> string.

(** The condition does not depend on the monitor or on the level. *)
Lemma saved_condition_eq :
  forall monitorId upper lower alertLevel,
    AlertRuleBody.condition
      (alert_rule_body NumberToString monitorId upper lower alertLevel)
    = saved_condition NumberToString upper lower.
Proof. intros monitorId [u|] [l|] alertLevel; reflexivity. Qed.

Lemma saved_condition_chars :
  forall upper lower,
    list_ascii_of_string (saved_condition NumberToString upper lower) =
    match upper, lower with
    | Some u, None => clause_chars ">" (list_ascii_of_string (NumberToString u))
    | None, Some l => clause_chars "<" (list_ascii_of_string (NumberToString l))
    | Some u, Some l =>
        clause_chars ">"
          (list_ascii_of_string (NumberToString u)
           ++ list_ascii_of_string " OR "
           ++ clause_chars "<" (list_ascii_of_string (NumberToString l)))
    | None, None => []
    end.
Proof.
  intros [u|] [l|]; try reflexivity.
  change (saved_condition NumberToString (Some u) (Some l))
    with (("value > " ++ NumberToString u)
          ++ (" OR " ++ ("value < " ++ NumberToString l)))%string.
  rewrite (list_ascii_of_string_app ("value > " ++ NumberToString u)).
  rewrite (list_ascii_of_string_app "value > ").
  rewrite (list_ascii_of_string_app " OR ").
  rewrite (list_ascii_of_string_app "value < ").
  unfold clause_chars. rewrite <- app_assoc. reflexivity.
Qed.

Lemma parseAlertCondition_searches :
  forall condition,
    parseAlertCondition condition None =
    let cs := list_ascii_of_string condition in
    {| Parsed.upper_threshold :=
         match search (Cat reference_re (operator_re ">")) cs with
         | Some m => Some (parseFloat_arg (group 1 m))
         | None => None
         end;
       Parsed.lower_threshold :=
         match search (Cat reference_re (operator_re "<")) cs with
         | Some m => Some (parseFloat_arg (group 1 m))
         | None => None
         end;
       Parsed.monitor_id :=
         match search monitorId_re cs with
         | Some m => group 1 m
         | None => None
         end |}.
Proof. reflexivity. Qed.

Lemma clause_no_dollar :
  forall op d,
    Ascii.eqb "$" op = false ->
    Forall (fun c => Ascii.eqb "$" c = false) d ->
    Forall (fun c => Ascii.eqb "$" c = false) (clause_chars op d).
Proof.
  intros op d Hop Hd. unfold clause_chars.
  repeat (constructor; [reflexivity|]). constructor; [exact Hop|].
  constructor; [reflexivity | exact Hd].
Qed.

Lemma group_1_single :
  forall d, group 1 [(1, list_ascii_of_string d)] = Some d.
Proof. intros d. simpl. rewrite string_of_list_ascii_of_string. reflexivity. Qed.

End SavedConditions.

Section ReadBack.

Variable NumberToString : number -> string.

Lemma read_back_upper :
  forall u,
    plain_decimal (NumberToString u) = true ->
    parseAlertCondition (saved_condition NumberToString (Some u) None) None =
    {| Parsed.upper_threshold := Some (parseFloat (NumberToString u));
       Parsed.lower_threshold := None;
       Parsed.monitor_id := None |}.
Proof.
  intros u Hu. destruct (plain_decimal_chars _ Hu) as [Hne Hd].
  rewrite parseAlertCondition_searches. cbv zeta.
  rewrite saved_condition_chars.
  rewrite <- (app_nil_r (list_ascii_of_string (NumberToString u))) at 1.
  rewrite clause_match; [|reflexivity | exact Hne | exact Hd | exact I].
  rewrite clause_skip; [|reflexivity | split; reflexivity | reflexivity | reflexivity].
  rewrite threshold_re_none by (apply digits_start_no_reference; exact Hd).
  rewrite monitorId_re_none.
  - rewrite group_1_single. reflexivity.
  - apply clause_no_dollar; [reflexivity|].
    eapply Forall_impl; [|exact Hd]. intros c Hc. apply (digit_or_dot_facts c Hc).
Qed.

Lemma read_back_lower :
  forall l,
    plain_decimal (NumberToString l) = true ->
    parseAlertCondition (saved_condition NumberToString None (Some l)) None =
    {| Parsed.upper_threshold := None;
       Parsed.lower_threshold := Some (parseFloat (NumberToString l));
       Parsed.monitor_id := None |}.
Proof.
  intros l Hl. destruct (plain_decimal_chars _ Hl) as [Hne Hd].
  rewrite parseAlertCondition_searches. cbv zeta.
  rewrite saved_condition_chars.
  rewrite clause_skip; [|reflexivity | split; reflexivity | reflexivity | reflexivity].
  rewrite threshold_re_none by (apply digits_start_no_reference; exact Hd).
  rewrite <- (app_nil_r (list_ascii_of_string (NumberToString l))) at 1.
  rewrite clause_match; [|reflexivity | exact Hne | exact Hd | exact I].
  rewrite monitorId_re_none.
  - rewrite group_1_single. reflexivity.
  - apply clause_no_dollar; [reflexivity|].
    eapply Forall_impl; [|exact Hd]. intros c Hc. apply (digit_or_dot_facts c Hc).
Qed.

Lemma read_back_both :
  forall u l,
    plain_decimal (NumberToString u) = true ->
    plain_decimal (NumberToString l) = true ->
    parseAlertCondition (saved_condition NumberToString (Some u) (Some l)) None =
    {| Parsed.upper_threshold := Some (parseFloat (NumberToString u));
       Parsed.lower_threshold := Some (parseFloat (NumberToString l));
       Parsed.monitor_id := None |}.
Proof.
  intros u l Hu Hl.
  destruct (plain_decimal_chars _ Hu) as [Hneu Hdu].
  destruct (plain_decimal_chars _ Hl) as [Hnel Hdl].
  rewrite parseAlertCondition_searches. cbv zeta.
  rewrite saved_condition_chars.
  rewrite clause_match; [|reflexivity | exact Hneu | exact Hdu | reflexivity].
  rewrite clause_skip; [|reflexivity | split; reflexivity | reflexivity | reflexivity].
  rewrite threshold_re_skip by (apply digits_start_no_reference; exact Hdu).
  rewrite (threshold_re_skip "<" (list_ascii_of_string " OR "))
    by (repeat constructor).
  rewrite <- (app_nil_r (list_ascii_of_string (NumberToString l))) at 1.
  rewrite clause_match; [|reflexivity | exact Hnel | exact Hdl | exact I].
  rewrite monitorId_re_none.
  - rewrite !group_1_single. reflexivity.
  - apply clause_no_dollar; [reflexivity|].
    apply Forall_app. split.
    + eapply Forall_impl; [|exact Hdu]. intros c Hc. apply (digit_or_dot_facts c Hc).
    + apply Forall_app. split; [repeat constructor|].
      apply clause_no_dollar; [reflexivity|].
      eapply Forall_impl; [|exact Hdl]. intros c Hc. apply (digit_or_dot_facts c Hc).
Qed.

End ReadBack.

(** X13: a threshold saved through [updateAlertConfig] for one monitor
    comes back for all of them.  When the numbers print as plain decimals
    that read back as themselves, the posted condition is parsed into the
    same thresholds but without a monitor id, so an enabled rule carrying
    it gives a config with these thresholds to every fetched monitor,
    whichever monitor the save named. *)
Theorem saved_threshold_read_back_for_all_monitors :
  forall (NumberToString : number -> string) (upper lower : number),
    plain_decimal (NumberToString upper) = true ->
    plain_decimal (NumberToString lower) = true ->
    parseFloat (NumberToString upper) = upper ->
    parseFloat (NumberToString lower) = lower ->
    forall (monitorId alertLevel : string) (upperThreshold lowerThreshold : option number),
      (upperThreshold = Some upper \/ upperThreshold = None) ->
      (lowerThreshold = Some lower \/ lowerThreshold = None) ->
      is_null upperThreshold && is_null lowerThreshold = false ->
      let condition :=
        AlertRuleBody.condition
          (alert_rule_body NumberToString monitorId upperThreshold lowerThreshold
             alertLevel) in
      parseAlertCondition condition None =
        {| Parsed.upper_threshold := upperThreshold;
           Parsed.lower_threshold := lowerThreshold;
           Parsed.monitor_id := None |}
      /\
      (forall monitors rule,
         ApiAlertRule.enabled rule = true ->
         ApiAlertRule.condition rule = condition ->
         process_rule monitors [] rule =
         map (fun m => config_for m upperThreshold lowerThreshold rule) monitors).
Proof.
  intros NumberToString upper lower Hu Hl Ru Rl monitorId alertLevel
         upperThreshold lowerThreshold Eu El Hnn condition.
  assert (Hp : parseAlertCondition condition None =
               {| Parsed.upper_threshold := upperThreshold;
                  Parsed.lower_threshold := lowerThreshold;
                  Parsed.monitor_id := None |}).
  { subst condition. rewrite saved_condition_eq.
    destruct Eu as [-> | ->], El as [-> | ->].
    - rewrite read_back_both, Ru, Rl by assumption. reflexivity.
    - rewrite read_back_upper, Ru by assumption. reflexivity.
    - rewrite read_back_lower, Rl by assumption. reflexivity.
    - discriminate Hnn. }
  split; [exact Hp|].
  intros monitors rule He Hc.
  apply process_rule_global; [exact He | rewrite Hc; exact Hp |].
  apply both_null_false. exact Hnn.
Qed.

Lemma saved_threshold_read_back_for_all_monitors_witness :
  let condition :=
    AlertRuleBody.condition
      (alert_rule_body integer_NumberToString "m1" (Some 100%float) (Some 5%float)
         "high") in
  parseAlertCondition condition None =
    {| Parsed.upper_threshold := Some 100%float;
       Parsed.lower_threshold := Some 5%float;
       Parsed.monitor_id := None |}
  /\
  (forall monitors rule,
     ApiAlertRule.enabled rule = true ->
     ApiAlertRule.condition rule = condition ->
     process_rule monitors [] rule =
     map (fun m => config_for m (Some 100%float) (Some 5%float) rule) monitors).
Proof.
  apply (saved_threshold_read_back_for_all_monitors integer_NumberToString
           100%float 5%float).
  - vm_compute. reflexivity.
  - vm_compute. reflexivity.
  - vm_compute. reflexivity.
  - vm_compute. reflexivity.
  - left. reflexivity.
  - left. reflexivity.
  - reflexivity.
Defined.

Section NegativeThreshold.

Variable NumberToString : number -> string.

Lemma minus_signed_chars :
  forall d,
    minus_signed d = true ->
    exists rest,
      list_ascii_of_string d = "-"%char :: rest /\ Forall starts_no_reference rest.
Proof.
  intros d H. unfold minus_signed in H.
  destruct (list_ascii_of_string d) as [|c rest]; [discriminate|].
  apply andb_prop in H. destruct H as [Hc Hrest].
  apply Ascii.eqb_eq in Hc. subst c. exists rest. split; [reflexivity|].
  apply Forall_forall. intros c Hin. rewrite forallb_forall in Hrest.
  specialize (Hrest c Hin). apply andb_prop in Hrest. destruct Hrest as [H1 H2].
  apply negb_true_iff in H1, H2. split; assumption.
Qed.

(** The clause [value OP -...] is matched by neither pattern. *)
Lemma clause_minus_none :
  forall op op' rest,
    (op = ">"%char \/ op = "<"%char) ->
    (op' = ">"%char \/ op' = "<"%char) ->
    Forall starts_no_reference rest ->
    search (Cat reference_re (operator_re op')) (clause_chars op ("-"%char :: rest))
    = None.
Proof.
  intros op op' rest Hop Hop' Hrest.
  assert (Htail : Forall starts_no_reference
                    (list_ascii_of_string "alue " ++ op :: " "%char :: "-"%char :: rest)).
  { repeat (constructor; [split; reflexivity|]).
    constructor; [destruct Hop as [-> | ->]; split; reflexivity|].
    repeat (constructor; [split; reflexivity|]). exact Hrest. }
  unfold clause_chars.
  change (list_ascii_of_string "value " ++ ?x)
    with ("v"%char :: list_ascii_of_string "alue " ++ x).
  rewrite search_next; [apply threshold_re_none; exact Htail|].
  unfold match_here. rewrite rmatch_cat.
  change ("v"%char :: list_ascii_of_string "alue " ++ ?x)
    with (list_ascii_of_string "value" ++ " "%char :: x).
  rewrite reference_value.
  destruct Hop as [-> | ->], Hop' as [-> | ->];
    try (apply operator_no_number; reflexivity);
    apply operator_mismatch; reflexivity.
Qed.

Lemma read_back_minus :
  forall x,
    minus_signed (NumberToString x) = true ->
    parseAlertCondition (saved_condition NumberToString (Some x) None) None =
      {| Parsed.upper_threshold := None;
         Parsed.lower_threshold := None;
         Parsed.monitor_id := None |}
    /\
    parseAlertCondition (saved_condition NumberToString None (Some x)) None =
      {| Parsed.upper_threshold := None;
         Parsed.lower_threshold := None;
         Parsed.monitor_id := None |}.
Proof.
  intros x Hx. destruct (minus_signed_chars _ Hx) as (rest & Hd & Hrest).
  assert (Hdollar : forall op, Ascii.eqb "$" op = false ->
            Forall (fun c => Ascii.eqb "$" c = false) (clause_chars op ("-"%char :: rest))).
  { intros op Hop. apply clause_no_dollar; [exact Hop|].
    constructor; [reflexivity|].
    eapply Forall_impl; [|exact Hrest]. intros c [H _]. exact H. }
  split; rewrite parseAlertCondition_searches; cbv zeta;
    rewrite saved_condition_chars, Hd;
    rewrite !clause_minus_none by (auto; fail);
    rewrite monitorId_re_none by (apply Hdollar; reflexivity);
    reflexivity.
Qed.

End NegativeThreshold.

(** X14: a negative threshold does not survive the save.  When the number
    prints with a leading minus sign, the condition [updateAlertConfig]
    posts for it alone yields no threshold when it is read back, so the
    rule created by the save adds no config for any monitor. *)
Theorem negative_threshold_lost_on_read_back :
  forall (NumberToString : number -> string) (x : number),
    minus_signed (NumberToString x) = true ->
    forall (monitorId alertLevel : string) (upperThreshold lowerThreshold : option number),
      (upperThreshold = Some x /\ lowerThreshold = None) \/
      (upperThreshold = None /\ lowerThreshold = Some x) ->
      let condition :=
        AlertRuleBody.condition
          (alert_rule_body NumberToString monitorId upperThreshold lowerThreshold
             alertLevel) in
      parseAlertCondition condition None =
        {| Parsed.upper_threshold := None;
           Parsed.lower_threshold := None;
           Parsed.monitor_id := None |}
      /\
      (forall monitors configs rule,
         ApiAlertRule.condition rule = condition ->
         process_rule monitors configs rule = configs).
Proof.
  intros NumberToString x Hx monitorId alertLevel upperThreshold lowerThreshold
         Hcase condition.
  assert (Hp : parseAlertCondition condition None =
               {| Parsed.upper_threshold := None;
                  Parsed.lower_threshold := None;
                  Parsed.monitor_id := None |}).
  { subst condition. rewrite saved_condition_eq.
    destruct (read_back_minus NumberToString x Hx) as [H1 H2].
    destruct Hcase as [[-> ->] | [-> ->]]; assumption. }
  split; [exact Hp|].
  intros monitors configs rule Hc. unfold process_rule.
  destruct (negb (ApiAlertRule.enabled rule)); [reflexivity|].
  rewrite Hc, Hp. reflexivity.
Qed.

Lemma negative_threshold_lost_on_read_back_witness :
  let condition :=
    AlertRuleBody.condition
      (alert_rule_body integer_NumberToString "m1" None (Some (-5)%float) "high") in
  parseAlertCondition condition None =
    {| Parsed.upper_threshold := None;
       Parsed.lower_threshold := None;
       Parsed.monitor_id := None |}
  /\
  (forall monitors configs rule,
     ApiAlertRule.condition rule = condition ->
     process_rule monitors configs rule = configs).
Proof.
  apply (negative_threshold_lost_on_read_back integer_NumberToString (-5)%float).
  - vm_compute. reflexivity.
  - right. split; reflexivity.
Defined.

(** The sample conditions, as posted. *)
Example saved_condition_samples :
  saved_condition integer_NumberToString (Some 100%float) (Some 5%float)
    = "value > 100 OR value < 5" /\
  saved_condition integer_NumberToString None (Some (-5)%float) = "value < -5".
Proof. split; vm_compute; reflexivity. Qed.

(** ** The filter argument of the condition parser *)

(** X15: called for a given monitor, [parseAlertCondition] answers as it
    does without the argument when the condition names that monitor or no
    monitor, and answers with no threshold and no monitor when the
    condition names another one; the monitor id it returns is never that
    of another monitor. *)
Theorem parseAlertCondition_for_monitor :
  forall condition monitorId,
    monitorId <> "" ->
    let unfiltered := parseAlertCondition condition None in
    let filtered := parseAlertCondition condition (Some monitorId) in
    (Parsed.monitor_id unfiltered = None \/
     Parsed.monitor_id unfiltered = Some monitorId -> filtered = unfiltered)
    /\
    (forall other,
       Parsed.monitor_id unfiltered = Some other -> other <> monitorId ->
       filtered = {| Parsed.upper_threshold := None;
                     Parsed.lower_threshold := None;
                     Parsed.monitor_id := None |})
    /\
    (Parsed.monitor_id filtered = None \/ Parsed.monitor_id filtered = Some monitorId).
Proof.
  intros condition monitorId Hne unfiltered filtered.
  assert (Htruthy : forall m, Parsed.monitor_id unfiltered = Some m ->
                              string_truthy (Some m) = true)
    by (intros m; apply parseAlertCondition_monitor_id_truthy).
  assert (Hfilter : string_truthy (Some monitorId) = true)
    by (simpl; apply negb_true_iff, String.eqb_neq; exact Hne).
  subst unfiltered filtered. unfold parseAlertCondition in *.
  set (mid := match string_match condition monitorId_re with
              | Some m => group 1 m
              | None => None
              end) in *.
  change (string_truthy None) with false in *. cbn [andb] in *. rewrite Hfilter.
  change (Parsed.monitor_id
            {| Parsed.upper_threshold := _;
               Parsed.lower_threshold := _;
               Parsed.monitor_id := mid |}) with mid in *.
  destruct mid as [m|].
  - rewrite (Htruthy m eq_refl). cbn [andb].
    destruct (String.eqb m monitorId) eqn:E; cbn [negb].
    + apply String.eqb_eq in E. subst m.
      split; [reflexivity|]. split; [intros other [= <-] H; congruence|].
      right. reflexivity.
    + apply String.eqb_neq in E.
      split; [intros [H|[= H]]; [discriminate H | congruence]|].
      split; [reflexivity|]. left. reflexivity.
  - cbn [andb]. split; [reflexivity|]. split; [discriminate|]. left. reflexivity.
Qed.

Lemma parseAlertCondition_for_monitor_witness :
  (parseAlertCondition "${monitor:m1} > 100" (Some "m1")
   = parseAlertCondition "${monitor:m1} > 100" None)
  /\
  parseAlertCondition "${monitor:m1} > 100" (Some "m2")
   = {| Parsed.upper_threshold := None;
        Parsed.lower_threshold := None;
        Parsed.monitor_id := None |}.
Proof.
  split.
  - apply (proj1 (parseAlertCondition_for_monitor "${monitor:m1} > 100" "m1"
                    ltac:(discriminate))).
    right. vm_compute. reflexivity.
  - apply (proj1 (proj2 (parseAlertCondition_for_monitor "${monitor:m1} > 100" "m2"
                           ltac:(discriminate))) "m1").
    + vm_compute. reflexivity.
    + discriminate.
Defined.

(** ** The forms *)

(** X16: the alert form never hands a NaN threshold to the API.  A
    threshold field whose text does not start a number ends the
    submission with a failure toast and without any API call; otherwise
    exactly one call is made, an empty field standing for no threshold,
    and the form is left only if that call succeeds. *)
Theorem EditAlertForm_rejects_invalid_numbers :
  forall (String_of_error : Error -> string)
         (api_updateAlertConfig : AlertCall -> Result AlertConfig.t)
         (monitor : MonitorSummary.t) (upperThreshold lowerThreshold alertLevel : string),
    let outcome :=
      EditAlertForm_handleSubmit String_of_error api_updateAlertConfig monitor
        upperThreshold lowerThreshold alertLevel in
    let invalid :=
      defined_nan (optional_number upperThreshold)
      || defined_nan (optional_number lowerThreshold) in
    (invalid = true ->
     api_calls outcome = [] /\ popped outcome = false /\
     exists message,
       final_toast outcome = ToastFailure "Failed to save alert config" message)
    /\
    (invalid = false ->
     api_calls outcome =
       [mkAlertCall (MonitorSummary.monitor_id monitor)
          (optional_number upperThreshold) (optional_number lowerThreshold) alertLevel]
     /\
     (popped outcome = true <->
      exists config,
        api_updateAlertConfig
          (mkAlertCall (MonitorSummary.monitor_id monitor)
             (optional_number upperThreshold) (optional_number lowerThreshold)
             alertLevel) = Ok config))
    /\
    Forall (fun call => defined_nan (call_upper call) = false /\
                        defined_nan (call_lower call) = false)
           (api_calls outcome)
    /\
    optional_number "" = None.
Proof.
  intros String_of_error api monitor upperThreshold lowerThreshold alertLevel
         outcome invalid.
  subst outcome invalid. unfold EditAlertForm_handleSubmit. cbv zeta.
  destruct (defined_nan (optional_number upperThreshold)) eqn:Eu;
    [|destruct (defined_nan (optional_number lowerThreshold)) eqn:El]; cbn [orb].
  - split; [intros _; split; [reflexivity|]; split; [reflexivity|];
            eexists; reflexivity|].
    split; [discriminate|]. split; [constructor | reflexivity].
  - split; [intros _; split; [reflexivity|]; split; [reflexivity|];
            eexists; reflexivity|].
    split; [discriminate|]. split; [constructor | reflexivity].
  - split; [discriminate|].
    destruct (api _) as [config|error] eqn:Ea; cbn [api_calls popped].
    + split; [intros _; split; [reflexivity|]; split; eauto|].
      split; [|reflexivity]. constructor; [|constructor]. simpl. auto.
    + split; [intros _; split; [reflexivity|];
              split; [discriminate | intros (config & H); discriminate H]|].
      split; [|reflexivity]. constructor; [|constructor]. simpl. auto.
Qed.

Lemma EditAlertForm_rejects_invalid_numbers_witness :
  let outcome :=
    EditAlertForm_handleSubmit sample_String_of_error
      (fun _ => Throw "unreachable") (sample_summary "m1") "abc" "5" "high" in
  api_calls outcome = [] /\ popped outcome = false /\
  exists message,
    final_toast outcome = ToastFailure "Failed to save alert config" message.
Proof.
  apply (proj1 (EditAlertForm_rejects_invalid_numbers sample_String_of_error
                  (fun _ => Throw "unreachable") (sample_summary "m1") "abc" "5" "high")).
  vm_compute. reflexivity.
Defined.




(** ** From the fetches to the alerts view *)

(** X18: when the two fetches of the alerts view succeed on the same
    upstream data, every config [getAlertConfigs] returns is shown: the
    view has an item for the monitor it names, and every item carries one
    of the returned configs, which names the item's monitor. *)
Theorem alerts_view_shows_every_configured_monitor :
  forall up alertRules monitors,
    request_alert_rules up = Ok alertRules ->
    request_monitors up = Ok monitors ->
    exists summaries configs,
      getMonitors up = Ok summaries /\
      getAlertConfigs up = Ok configs /\
      let items := alertItems (Some summaries) (Some configs) in
      (forall c,
         In c configs ->
         exists item,
           In item items /\
           MonitorSummary.monitor_id (AlertItem.monitor item) = AlertConfig.monitor_id c) /\
      (forall item,
         In item items ->
         In (AlertItem.config item) configs /\
         AlertConfig.monitor_id (AlertItem.config item)
           = MonitorSummary.monitor_id (AlertItem.monitor item)).
Proof.
  intros up alertRules monitors Hr Hm.
  exists (map transformMonitor monitors), (emitted monitors alertRules).
  split; [apply getMonitors_fetched; exact Hm|].
  split; [apply getAlertConfigs_fetched; assumption|].
  cbv zeta. rewrite alertItems_flat_map. split.
  - intros c Hc.
    pose proof (emitted_targets monitors alertRules) as Ht.
    rewrite Forall_forall in Ht. specialize (Ht c Hc).
    apply in_map_iff in Ht. destruct Ht as (m & Hid & Hin).
    destruct (proj2 (last_config_for_some (emitted monitors alertRules)
                       (AlertConfig.monitor_id c))) as (c' & Hc').
    { apply existsb_exists. exists c. split; [exact Hc | apply String.eqb_refl]. }
    eexists. split.
    + apply in_flat_map. exists (transformMonitor m).
      split; [apply in_map; exact Hin|].
      change (MonitorSummary.monitor_id (transformMonitor m)) with (ApiMonitor.id m).
      rewrite Hid, Hc'. left. reflexivity.
    + simpl. exact Hid.
  - intros item Hin. apply in_flat_map in Hin. destruct Hin as (s & _ & Hin).
    destruct (last_config_for _ (MonitorSummary.monitor_id s)) as [c'|] eqn:E;
      [|destruct Hin].
    destruct Hin as [<-|[]]. simpl.
    unfold last_config_for in E. apply find_some in E. destruct E as [Hin Heq].
    split; [apply in_rev; exact Hin | apply String.eqb_eq; exact Heq].
Qed.

Lemma alerts_view_shows_every_configured_monitor_witness :
  exists summaries configs,
    getMonitors (sample_upstream [sample_rule "${monitor:m3} < 5" true] three_monitors)
      = Ok summaries /\
    getAlertConfigs (sample_upstream [sample_rule "${monitor:m3} < 5" true] three_monitors)
      = Ok configs /\
    let items := alertItems (Some summaries) (Some configs) in
    (forall c,
       In c configs ->
       exists item,
         In item items /\
         MonitorSummary.monitor_id (AlertItem.monitor item) = AlertConfig.monitor_id c) /\
    (forall item,
       In item items ->
       In (AlertItem.config item) configs /\
       AlertConfig.monitor_id (AlertItem.config item)
         = MonitorSummary.monitor_id (AlertItem.monitor item)).
Proof.
  apply (alerts_view_shows_every_configured_monitor
           (sample_upstream [sample_rule "${monitor:m3} < 5" true] three_monitors)
           [sample_rule "${monitor:m3} < 5" true] three_monitors).
  - reflexivity.
  - reflexivity.
Defined.

(** The fetched sample run through the view: the rule on [m3] with lower
    threshold 5 and value 7 gives one inactive item. *)
Example alertItems_sample :
  map (fun item => (MonitorSummary.monitor_id (AlertItem.monitor item),
                    AlertItem.isActive item))
    (alertItems (Some (map transformMonitor three_monitors))
       (Some (emitted three_monitors [sample_rule "${monitor:m3} < 5" true;
                                       sample_rule "value > 100" true])))
  = [("m1", true); ("m2", false); ("m3", false)].
Proof. vm_compute. reflexivity. Qed.
